(** * Scene history, time reconciliation and context assembly of talemate

    A shallow embedding of [talemate/scene_message.py] and of the history,
    clock, context-window and game-loop methods of [Scene] in
    [talemate/tale_mate.py], with the properties of the specification
    stated and settled over it.

    Conventions of the embedding.
    - Python strings are [string]s over ASCII; [upper], [lower], [strip]
      and the regular-expression word boundary are the ASCII ones.
    - A Python [dict] with string keys is a [gmap string value]; a missing
      key and a key bound to [None] are different things, as in the code.
    - A method that can raise returns a [Result]; a method that mutates the
      scene and can raise returns the scene it leaves behind together with
      the [Result].
    - Messages and archive entries are values: every entry of a history is
      its own object (a message is constructed once and appended once). *)

From Stdlib Require Import ZArith Lia Ascii String List.
From stdpp Require Import base option list strings gmap pretty.

Local Open Scope string_scope.
Local Open Scope list_scope.
Local Open Scope Z_scope.

(** ** Python values, exceptions and results *)

Inductive value : Type :=
| VNone
| VStr (s : string)
| VInt (n : Z).

Global Instance value_eq_dec : EqDecision value.
Proof. solve_decision. Defined.

(** [bool(v)] *)
Definition truthy (v : value) : bool :=
  match v with
  | VNone => false
  | VStr s => negb (String.eqb s "")
  | VInt n => negb (n =? 0)
  end.

(** [str(v)], as an f-string interpolates it. *)
Definition py_str (v : value) : string :=
  match v with
  | VNone => "None"
  | VStr s => s
  | VInt n => pretty n
  end.

Inductive exn : Type :=
| IndexError
| KeyError
| TypeError
| AttributeError
| ValueError
| ActedAsCharacter
| GenerationCancelled
| TalemateInterrupt
| LLMAccuracyError
| TalemateError
| ClientDisabledError
| OtherException
| CancelledError
| KeyboardInterrupt
| SystemExit.

(** [isinstance(e, Exception)]: [asyncio.CancelledError],
    [KeyboardInterrupt] and [SystemExit] derive from [BaseException]
    only. *)
Definition is_exception (e : exn) : bool :=
  match e with
  | CancelledError | KeyboardInterrupt | SystemExit => false
  | _ => true
  end.

Global Instance exn_eq_dec : EqDecision exn.
Proof. solve_decision. Defined.

Inductive Result (A : Type) : Type :=
| Ok (a : A)
| Raise (e : exn).

Arguments Ok {A} a.
Arguments Raise {A} e.

Definition bind {A B : Type} (r : Result A) (k : A -> Result B) : Result B :=
  match r with
  | Ok a => k a
  | Raise e => Raise e
  end.

Notation "x <- r ;; k" := (bind r (fun x => k))
  (at level 100, r at next level, right associativity).

Definition is_ok {A : Type} (r : Result A) : bool :=
  match r with Ok _ => true | Raise _ => false end.

(** [d[key]] *)
Definition getitem (d : gmap string value) (key : string) : Result value :=
  match d !! key with
  | Some v => Ok v
  | None => Raise KeyError
  end.

(** [d.get(key)] *)
Definition dict_get (d : gmap string value) (key : string) : value :=
  default VNone (d !! key).

(** [key in d] *)
Definition contains (d : gmap string value) (key : string) : bool :=
  bool_decide (is_Some (d !! key)).

(** [l[n:]] for a possibly negative [n]. *)
Definition slice_from {A : Type} (n : Z) (l : list A) : list A :=
  if 0 <=? n then drop (Z.to_nat n) l
  else drop (Z.to_nat (Z.of_nat (length l) + n)) l.

(** ** String operations used by the message classes *)

(** The line feed and the double quote, as one-character strings. *)
Definition NL : string := String (ascii_of_nat 10) EmptyString.
Definition DQUOTE : string := String (ascii_of_nat 34) EmptyString.

Module Str.

Definition is_space (c : ascii) : bool :=
  let n := nat_of_ascii c in
  ((9 <=? n) && (n <=? 13) || (28 <=? n) && (n <=? 32))%nat.

Definition is_word (c : ascii) : bool :=
  let n := nat_of_ascii c in
  ((48 <=? n) && (n <=? 57) || (65 <=? n) && (n <=? 90)
   || (97 <=? n) && (n <=? 122) || (n =? 95))%nat.

Definition upper_char (c : ascii) : ascii :=
  let n := nat_of_ascii c in
  if ((97 <=? n) && (n <=? 122))%nat then ascii_of_nat (n - 32) else c.

Definition lower_char (c : ascii) : ascii :=
  let n := nat_of_ascii c in
  if ((65 <=? n) && (n <=? 90))%nat then ascii_of_nat (n + 32) else c.

Fixpoint map (f : ascii -> ascii) (s : string) : string :=
  match s with
  | EmptyString => EmptyString
  | String c s' => String (f c) (map f s')
  end.

(** [s.upper()], [s.lower()] *)
Definition upper : string -> string := map upper_char.
Definition lower : string -> string := map lower_char.

Fixpoint lstrip_by (p : ascii -> bool) (s : string) : string :=
  match s with
  | EmptyString => EmptyString
  | String c s' => if p c then lstrip_by p s' else s
  end.

Fixpoint rstrip_by (p : ascii -> bool) (s : string) : string :=
  match s with
  | EmptyString => EmptyString
  | String c s' =>
      match rstrip_by p s' with
      | EmptyString => if p c then EmptyString else String c EmptyString
      | t => String c t
      end
  end.

(** [s.strip()] *)
Definition strip (s : string) : string :=
  rstrip_by is_space (lstrip_by is_space s).

(** [s.rstrip("\n")] *)
Definition rstrip_newline (s : string) : string :=
  rstrip_by (Ascii.eqb "010"%char) s.

(** [s.split(sep, 1)] for a one-character [sep]: the text before the
    first [sep], and the text after it when there is one. *)
Fixpoint split_once (sep : ascii) (s : string) : string * option string :=
  match s with
  | EmptyString => (EmptyString, None)
  | String c s' =>
      if Ascii.eqb c sep then (EmptyString, Some s')
      else let '(a, b) := split_once sep s' in (String c a, b)
  end.

(** [s.split(":", 1)[0]] *)
Definition before_colon (s : string) : string :=
  fst (split_once ":"%char s).

(** [s.split(":", 1)[1]] *)
Definition after_colon (s : string) : Result string :=
  match snd (split_once ":"%char s) with
  | Some t => Ok t
  | None => Raise IndexError
  end.

(** [s.split(":")[1]]: the text between the first and the second colon. *)
Definition second_field (s : string) : Result string :=
  t <- after_colon s ;; Ok (before_colon t).

(** The scan of [s.replace(old, new)] for a non-empty [old]; [skip]
    counts the characters of a match that are still to be dropped. *)
Fixpoint replace_go (old new : string) (skip : nat) (s : string) : string :=
  match s with
  | EmptyString => EmptyString
  | String c s' =>
      match skip with
      | S k => replace_go old new k s'
      | O =>
          if String.prefix old s
          then new +:+ replace_go old new (String.length old - 1) s'
          else String c (replace_go old new O s')
      end
  end.

Fixpoint intersperse (new s : string) : string :=
  match s with
  | EmptyString => new
  | String c s' => new +:+ String c (intersperse new s')
  end.

(** [s.replace(old, new)] *)
Definition replace (old new s : string) : string :=
  if String.eqb old "" then intersperse new s else replace_go old new O s.

(** [re.sub(r"\bword\b", rep, s)] for a [word] made of word characters:
    [prev] tells whether the character before the cursor is a word
    character. *)
Fixpoint sub_word_go (word rep : string) (prev : bool) (skip : nat)
    (s : string) : string :=
  match s with
  | EmptyString => EmptyString
  | String c s' =>
      match skip with
      | S k => sub_word_go word rep (is_word c) k s'
      | O =>
          let ends_at_boundary :=
            match String.get (String.length word) s with
            | Some d => negb (is_word d)
            | None => true
            end in
          if negb prev && String.prefix word s && ends_at_boundary
          then rep +:+ sub_word_go word rep (is_word c)
                         (String.length word - 1) s'
          else String c (sub_word_go word rep (is_word c) O s')
      end
  end.

Definition sub_word (word rep s : string) : string :=
  sub_word_go word rep false O s.

(** [s[n:]] for [n >= 0] *)
Fixpoint drop (n : nat) (s : string) : string :=
  match n, s with
  | O, _ => s
  | S k, EmptyString => EmptyString
  | S k, String _ s' => drop k s'
  end.

Definition contains_char (c : ascii) (s : string) : bool :=
  match snd (split_once c s) with Some _ => true | None => false end.

End Str.

(** ** The message model ([scene_message.py]) *)

(** [SceneMessage.meta]: the keys [agent], [function] and [arguments]. *)
Record Meta : Type := {
  meta_agent : option string;
  meta_function : option string;
  meta_arguments : option (gmap string string)
}.

(** The message classes; each carries the fields its class adds. *)
Inductive MessageClass : Type :=
| SceneMessageC
| CharacterMessage (from_choice : option string)
| NarratorMessage
| DirectorMessage (action : string)
| TimePassageMessage (ts : string)
| ReinforcementMessage
| ContextInvestigationMessage (sub_type : option string).

Record SceneMessage : Type := {
  msg_message : string;
  msg_id : Z;
  msg_source : string;
  msg_meta : option Meta;
  msg_flags : Z;
  msg_class : MessageClass
}.

Global Instance Meta_eq_dec : EqDecision Meta.
Proof. solve_decision. Defined.

Global Instance MessageClass_eq_dec : EqDecision MessageClass.
Proof. solve_decision. Defined.

Global Instance SceneMessage_eq_dec : EqDecision SceneMessage.
Proof. solve_decision. Defined.

Definition typ (m : SceneMessage) : string :=
  match msg_class m with
  | SceneMessageC => "scene"
  | CharacterMessage _ => "character"
  | NarratorMessage => "narrator"
  | DirectorMessage _ => "director"
  | TimePassageMessage _ => "time"
  | ReinforcementMessage => "reinforcement"
  | ContextInvestigationMessage _ => "context_investigation"
  end.

Definition is_character (m : SceneMessage) : bool :=
  match msg_class m with CharacterMessage _ => true | _ => false end.

Definition is_narrator (m : SceneMessage) : bool :=
  match msg_class m with NarratorMessage => true | _ => false end.

Definition is_director (m : SceneMessage) : bool :=
  match msg_class m with DirectorMessage _ => true | _ => false end.

Definition is_time_passage (m : SceneMessage) : bool :=
  match msg_class m with TimePassageMessage _ => true | _ => false end.

Definition is_reinforcement (m : SceneMessage) : bool :=
  match msg_class m with ReinforcementMessage => true | _ => false end.

Definition is_context_investigation (m : SceneMessage) : bool :=
  match msg_class m with ContextInvestigationMessage _ => true | _ => false end.

(** [Flags.NONE] and [Flags.HIDDEN] *)
Definition NONE : Z := 0.
Definition HIDDEN : Z := 1.

(** The bits that the members of [Flags] name. *)
Definition flag_mask : Z := Z.lor NONE HIDDEN.

(** [~flag] on a member of [Flags]: the [enum] module (Python 3.11) gives
    the members of the class that are not in [flag], so that
    [~Flags.HIDDEN] is [Flags.NONE]; it is not the two's complement of the
    integer. *)
Definition flags_invert (flag : Z) : Z := Z.land flag_mask (Z.lnot flag).

(** [message.hidden], read as a condition. *)
Definition hidden (m : SceneMessage) : bool :=
  negb (Z.land (msg_flags m) HIDDEN =? 0).

(** [message.message = text] *)
Definition set_message (text : string) (m : SceneMessage) : SceneMessage :=
  {| msg_message := text; msg_id := msg_id m; msg_source := msg_source m;
     msg_meta := msg_meta m; msg_flags := msg_flags m;
     msg_class := msg_class m |}.

(** [not s] for an optional string. *)
Definition falsy_opt (o : option string) : bool :=
  match o with
  | None => true
  | Some s => String.eqb s ""
  end.

(** [message.source_arguments.get(key, dflt)] *)
Definition source_argument (m : SceneMessage) (key dflt : string) : string :=
  match msg_meta m with
  | Some mt =>
      match meta_arguments mt with
      | Some args => default dflt (args !! key)
      | None => dflt
      end
  | None => dflt
  end.

Module Character.

Definition character_name (m : SceneMessage) : string :=
  Str.before_colon (msg_message m).

Definition as_movie_script (m : SceneMessage) : Result string :=
  body <- Str.after_colon (msg_message m) ;;
  Ok (NL +:+ Str.upper (character_name m) +:+ NL
        +:+ Str.strip body +:+ NL +:+ "END-OF-LINE" +:+ NL).

End Character.

Module Director.

Definition transformed_message (m : SceneMessage) : string :=
  Str.replace "Director instructs " "" (msg_message m).

Definition character_name (action : string) (m : SceneMessage) : string :=
  if String.eqb action "actor_instruction"
  then Str.before_colon (transformed_message m)
  else "".

Definition dialogue (action : string) (m : SceneMessage) : Result string :=
  if String.eqb action "actor_instruction"
  then Str.after_colon (transformed_message m)
  else Ok (msg_message m).

Definition instructions (action : string) (m : SceneMessage) : Result string :=
  if String.eqb action "actor_instruction"
  then d <- dialogue action m ;;
       Ok (Str.strip
             (Str.replace "To progress the scene, i want you to " ""
                (Str.replace DQUOTE "" d)))
  else Ok (msg_message m).

Definition as_inner_monologue (action : string) (m : SceneMessage)
    : Result string :=
  ins <- instructions action m ;;
  let ins := Str.lower ins in
  if String.eqb (character_name action m) "" then Ok ins
  else
    let ins := Str.sub_word "yourself" "myself" ins in
    let ins := Str.sub_word "your" "my" ins in
    let ins := Str.sub_word "you" "i" ins in
    Ok (character_name action m +:+ " thinks: I should " +:+ ins).

Definition as_story_progression (action : string) (m : SceneMessage)
    : Result string :=
  let name := character_name action m in
  ins <- instructions action m ;;
  Ok (name +:+ "'s next action: " +:+ ins).

Definition as_format (action : string) (m : SceneMessage)
    (format mode : string) : Result string :=
  if String.eqb format "movie_script" then
    if String.eqb mode "internal_monologue"
    then t <- as_inner_monologue action m ;; Ok (NL +:+ "(" +:+ t +:+ ")" +:+ NL)
    else t <- as_story_progression action m ;; Ok (NL +:+ "(" +:+ t +:+ ")" +:+ NL)
  else
    if String.eqb mode "internal_monologue"
    then t <- as_inner_monologue action m ;; Ok ("# " +:+ t)
    else t <- as_story_progression action m ;; Ok ("# " +:+ t).

End Director.

Module Reinforcement.

Definition character_name (m : SceneMessage) : Result string :=
  Str.second_field (msg_source m).

(** [__str__]: unpacking [source.split(":", 1)] into two names fails with
    [ValueError] when the source has no colon. *)
Definition to_str (m : SceneMessage) : Result string :=
  match Str.split_once ":"%char (msg_source m) with
  | (question, Some _) =>
      name <- character_name m ;;
      Ok ("# Internal note for " +:+ name +:+ " - " +:+ question
            +:+ NL +:+ msg_message m)
  | (_, None) => Raise ValueError
  end.

Definition as_format (m : SceneMessage) (format : string) : Result string :=
  if String.eqb format "movie_script"
  then s <- to_str m ;; Ok (NL +:+ "(" +:+ Str.drop 2 s +:+ ")" +:+ NL)
  else Ok (NL +:+ msg_message m +:+ NL).

End Reinforcement.

Module ContextInvestigation.

Definition title (sub_type : option string) (m : SceneMessage) : string :=
  match sub_type with
  | Some "visual-character" =>
      "Visual description of " +:+ source_argument m "character" "character"
        +:+ " in the current moment"
  | Some "visual-scene" => "Visual description of the current moment"
  | Some "query" => "Query: " +:+ source_argument m "query" "query"
  | _ => "Internal note"
  end.

Definition to_str (sub_type : option string) (m : SceneMessage) : string :=
  "# " +:+ title sub_type m +:+ ": " +:+ msg_message m.

Definition as_format (sub_type : option string) (m : SceneMessage)
    (format : string) : string :=
  if String.eqb format "movie_script"
  then Str.replace "*" ""
         (NL +:+ "(" +:+ Str.drop 2 (to_str sub_type m) +:+ ")" +:+ NL)
  else Str.replace "*" "" (NL +:+ msg_message m +:+ NL).

End ContextInvestigation.

(** [message.as_format(format, mode=mode)], dispatched on the class. *)
Definition as_format (m : SceneMessage) (format mode : string) : Result string :=
  match msg_class m with
  | CharacterMessage _ =>
      if String.eqb format "movie_script" then Character.as_movie_script m
      else Ok (msg_message m)
  | DirectorMessage action => Director.as_format action m format mode
  | ReinforcementMessage => Reinforcement.as_format m format
  | ContextInvestigationMessage sub_type =>
      Ok (ContextInvestigation.as_format sub_type m format)
  | SceneMessageC | NarratorMessage | TimePassageMessage _ =>
      if String.eqb format "movie_script"
      then Ok (Str.rstrip_newline (msg_message m) +:+ NL)
      else Ok (msg_message m)
  end.

(** [str(message)], dispatched on the class: [DirectorMessage.__str__] is
    [self.as_format("chat")], whose [mode] defaults to [direction]. *)
Definition message_str (m : SceneMessage) : Result string :=
  match msg_class m with
  | DirectorMessage action => Director.as_format action m "chat" "direction"
  | ReinforcementMessage => Reinforcement.to_str m
  | ContextInvestigationMessage sub_type =>
      Ok (ContextInvestigation.to_str sub_type m)
  | SceneMessageC | CharacterMessage _ | NarratorMessage
  | TimePassageMessage _ => Ok (msg_message m)
  end.

(** ** The scene *)

(** An archive or layer entry: a [dict] with the keys [text], [ts],
    [ts_start], [ts_end], [start] and [end], any of which may be missing. *)
Abbreviation Entry := (gmap string value).

(** What the scene reads from its agents and its player character. *)
Record Helpers : Type := {
  conversation_format : string;
  actor_direction_mode : string;
  layered_history_enabled : bool;
  fix_exposition_enabled : bool;
  fix_exposition_narrator : bool;
  player_name : option string
}.

Record Scene : Type := {
  history : list SceneMessage;
  archived_history : list Entry;
  layered_history : list (list Entry);
  ts : value;
  intro : string;
  helpers : Helpers
}.

Definition set_history (h : list SceneMessage) (s : Scene) : Scene :=
  {| history := h; archived_history := archived_history s;
     layered_history := layered_history s; ts := ts s; intro := intro s;
     helpers := helpers s |}.

Definition set_archived_history (a : list Entry) (s : Scene) : Scene :=
  {| history := history s; archived_history := a;
     layered_history := layered_history s; ts := ts s; intro := intro s;
     helpers := helpers s |}.

Definition set_ts (t : value) (s : Scene) : Scene :=
  {| history := history s; archived_history := archived_history s;
     layered_history := layered_history s; ts := t; intro := intro s;
     helpers := helpers s |}.

(** The backward scan [for idx in range(n - 1, -1, -1)] that stops at the
    first index whose element satisfies [p]. *)
Fixpoint rfind_index {A : Type} (p : A -> bool) (l : list A) (n : nat)
    : option nat :=
  match n with
  | O => None
  | S k =>
      match l !! k with
      | Some x => if p x then Some k else rfind_index p l k
      | None => rfind_index p l k
      end
  end.

(** ** The history store *)

Section History.

(** [isodate.duration_isoformat(isodate.parse_duration(a) +
    isodate.parse_duration(b))], of the isodate package: the sum of two
    ISO 8601 durations, or the exception the parser raises. *)
Variable isodate_add : value -> string -> Result string.

(** [Scene.advance_time] *)
Definition advance_time (t : string) (s : Scene) : Scene * Result unit :=
  match isodate_add (ts s) t with
  | Ok t' => (set_ts (VStr t') s, Ok tt)
  | Raise e => (s, Raise e)
  end.

Definition same_source_director (source : string) (m : SceneMessage) : bool :=
  is_director m && String.eqb (msg_source m) source.

(** The inner loop of [push_history]: pop the most recent director
    message of the given source. *)
Definition evict_director (source : string) (h : list SceneMessage)
    : list SceneMessage :=
  match rfind_index (same_source_director source) h (length h) with
  | Some idx => delete idx h
  | None => h
  end.

(** The [for message in messages] loop of [push_history]. *)
Fixpoint push_prepare (messages : list SceneMessage) (s : Scene)
    : Scene * Result unit :=
  match messages with
  | [] => (s, Ok tt)
  | m :: rest =>
      match msg_class m with
      | DirectorMessage _ =>
          push_prepare rest
            (set_history (evict_director (msg_source m) (history s)) s)
      | TimePassageMessage t =>
          match advance_time t s with
          | (s', Ok _) => push_prepare rest s'
          | (s', Raise e) => (s', Raise e)
          end
      | _ => push_prepare rest s
      end
  end.

(** [Scene.push_history]; the notifications sent after the history is
    extended do not change the scene and are left out. *)
Definition push_history (messages : list SceneMessage) (s : Scene)
    : Scene * Result unit :=
  match push_prepare messages s with
  | (s', Ok _) => (set_history (history s' ++ messages)%list s', Ok tt)
  | (s', Raise e) => (s', Raise e)
  end.

(** A sequence of [push_history] calls, stopping at the first that raises. *)
Fixpoint push_all (calls : list (list SceneMessage)) (s : Scene)
    : Scene * Result unit :=
  match calls with
  | [] => (s, Ok tt)
  | messages :: rest =>
      match push_history messages s with
      | (s', Ok _) => push_all rest s'
      | (s', Raise e) => (s', Raise e)
      end
  end.

End History.

(** The number of director messages of a source in a history. *)
Definition director_count (source : string) (h : list SceneMessage) : nat :=
  length (filter (fun m => same_source_director source m = true) h).

(** The invariant of the history store on director messages. *)
Definition one_director_per_source (h : list SceneMessage) : Prop :=
  forall source, (director_count source h <= 1)%nat.

(** The first two conditions of [collect_messages]. *)
Definition matches_filter (typ_filter source_filter : option string)
    (m : SceneMessage) : bool :=
  (falsy_opt typ_filter || bool_decide (typ_filter = Some (typ m)))
  && (falsy_opt source_filter
      || bool_decide (source_filter = Some (msg_source m))).

(** The loop of [collect_messages], about to look at index [i - 1]. *)
Fixpoint collect_loop (h : list SceneMessage)
    (typ_filter source_filter : option string)
    (max_iterations : Z) (max_messages : option Z)
    (i : nat) (iterations collected : Z) (messages : list SceneMessage)
    : list SceneMessage :=
  match i with
  | O => messages
  | S k =>
      match h !! k with
      | None => messages
      | Some m =>
          if matches_filter typ_filter source_filter m then
            let messages' := (messages ++ [m])%list in
            let collected' := collected + 1 in
            if match max_messages with
               | Some mm => mm <=? collected'
               | None => false
               end
            then messages'
            else if max_iterations <=? iterations + 1 then messages'
            else collect_loop h typ_filter source_filter max_iterations
                   max_messages k (iterations + 1) collected' messages'
          else if max_iterations <=? iterations + 1 then messages
          else collect_loop h typ_filter source_filter max_iterations
                 max_messages k (iterations + 1) collected messages
      end
  end.

(** [Scene.collect_messages] *)
Definition collect_messages (s : Scene)
    (typ_filter source_filter : option string)
    (max_iterations : Z) (max_messages : option Z) : list SceneMessage :=
  collect_loop (history s) typ_filter source_filter max_iterations
    max_messages (length (history s)) 0 0 [].

(** [Scene.edit_message]: the first message of the given id gets the new
    text; the [message_edited] event it emits is left out. *)
Definition edit_message (message_id : Z) (text : string) (s : Scene) : Scene :=
  match list_find (fun m => msg_id m = message_id) (history s) with
  | Some (i, _) => set_history (alter (set_message text) i (history s)) s
  | None => s
  end.

(** ** Rerun *)

(** What [rerun] hands to the agents once it has popped the message. *)
Inductive RerunDispatch : Type :=
| NothingToRerun
| RerunCharacterMessage (m : SceneMessage)
| RerunNarratorMessage (m : SceneMessage)
| RerunDirectorMessage (m : SceneMessage)
| RerunContextInvestigationMessage (m : SceneMessage).

(** The scene's history when [rerun] reaches its agents or returns, the
    regeneration it asks for (or the exception it raises), and the popped
    reinforcement messages it regenerates afterwards. *)
Record RerunOutcome : Type := {
  rerun_history : list SceneMessage;
  rerun_dispatch : Result RerunDispatch;
  rerun_reinforcements : list SceneMessage
}.

(** The [while isinstance(message, ReinforcementMessage)] loop over the
    history read from its end ([rh] is the history reversed): each round
    pops the last message and reads the new last one. *)
Fixpoint pop_reinforcements (rh popped : list SceneMessage)
    : list SceneMessage * list SceneMessage * Result SceneMessage :=
  match rh with
  | [] => ([], popped, Raise IndexError)
  | m :: rest =>
      if is_reinforcement m
      then pop_reinforcements rest (popped ++ [m])%list
      else (rh, popped, Ok m)
  end.

(** [message.source == "player" and not message.from_choice]; only a
    character message has the attribute [from_choice]. *)
Definition cannot_rerun (m : SceneMessage) : Result bool :=
  if String.eqb (msg_source m) "player" then
    match msg_class m with
    | CharacterMessage from_choice => Ok (falsy_opt from_choice)
    | _ => Raise AttributeError
    end
  else Ok false.

(** The message that [log.debug(f"Rerunning message: {message} ...")]
    formats: the f-string calls [str(message)] before anything is logged,
    and an exception of [__str__] leaves [rerun]. *)
Definition rerunning_message (m : SceneMessage) : Result string :=
  text <- message_str m ;;
  Ok ("Rerunning message: " +:+ text +:+ " [" +:+ pretty (msg_id m) +:+ "]").

(** [Scene.rerun], up to the calls into the agents. *)
Definition rerun (s : Scene) : RerunOutcome :=
  match rev (history s) with
  | [] =>
      {| rerun_history := history s; rerun_dispatch := Ok NothingToRerun;
         rerun_reinforcements := [] |}
  | _ :: _ =>
      match pop_reinforcements (rev (history s)) [] with
      | (rh, _, Raise e) =>
          {| rerun_history := rev rh; rerun_dispatch := Raise e;
             rerun_reinforcements := [] |}
      | (rh, popped, Ok m) =>
          match (_ <- rerunning_message m ;; cannot_rerun m) with
          | Raise e =>
              {| rerun_history := rev rh; rerun_dispatch := Raise e;
                 rerun_reinforcements := [] |}
          | Ok true =>
              {| rerun_history := rev rh; rerun_dispatch := Ok NothingToRerun;
                 rerun_reinforcements := [] |}
          | Ok false =>
              let popped_history := rev (tail rh) in
              match msg_class m with
              | CharacterMessage _ =>
                  {| rerun_history := popped_history;
                     rerun_dispatch := Ok (RerunCharacterMessage m);
                     rerun_reinforcements := popped |}
              | NarratorMessage =>
                  if negb (String.eqb (msg_source m) "player") then
                    {| rerun_history := popped_history;
                       rerun_dispatch := Ok (RerunNarratorMessage m);
                       rerun_reinforcements := popped |}
                  else
                    {| rerun_history := rev rh;
                       rerun_dispatch := Ok NothingToRerun;
                       rerun_reinforcements := [] |}
              | DirectorMessage _ =>
                  {| rerun_history := popped_history;
                     rerun_dispatch := Ok (RerunDirectorMessage m);
                     rerun_reinforcements := popped |}
              | ContextInvestigationMessage _ =>
                  {| rerun_history := popped_history;
                     rerun_dispatch := Ok (RerunContextInvestigationMessage m);
                     rerun_reinforcements := popped |}
              | _ =>
                  {| rerun_history := rev rh;
                     rerun_dispatch := Ok NothingToRerun;
                     rerun_reinforcements := [] |}
              end
          end
      end
  end.

(** The most recent message that is not a reinforcement message. *)
Definition last_non_reinforcement (h : list SceneMessage) : option SceneMessage :=
  head (filter (fun m => is_reinforcement m = false) (rev h)).

(** ** Time reconciliation *)

Section Time.

(** [util.iso8601_add], of the module [talemate.util] that is not
    embedded here: the sum of two ISO 8601 durations as a string, or the
    exception raised on an operand it cannot read. *)
Variable iso8601_add : value -> string -> Result string.

(** The first loop of [_fix_time]. *)
Fixpoint starting_time_loop (entries : list Entry) (starting_time : value)
    : value :=
  match entries with
  | [] => starting_time
  | e :: rest =>
      if contains e "ts" && negb (contains e "end")
      then starting_time_loop rest (dict_get e "ts")
      else if contains e "end" then starting_time
      else starting_time_loop rest starting_time
  end.

(** [time_jumps]: the index and duration of every time passage message,
    for the history from index [idx] on. *)
Fixpoint time_jumps_from (idx : nat) (h : list SceneMessage)
    : list (nat * string) :=
  match h with
  | [] => []
  | m :: rest =>
      match msg_class m with
      | TimePassageMessage t => (idx, t) :: time_jumps_from (S idx) rest
      | _ => time_jumps_from (S idx) rest
      end
  end.

(** [cumulative_time_jumps], starting from the running time [t]. *)
Fixpoint cumulate (t : value) (jumps : list (nat * string))
    : Result (list (nat * string)) :=
  match jumps with
  | [] => Ok []
  | (idx, ts_jump) :: rest =>
      t' <- iso8601_add t ts_jump ;;
      more <- cumulate (VStr t') rest ;;
      Ok ((idx, t') :: more)
  end.

(** The search for [best_ts]; comparing an index with anything but an
    integer raises [TypeError]. *)
Fixpoint best_ts_loop (cumulative : list (nat * string)) (end_ : value)
    (best_ts : option string) : Result (option string) :=
  match cumulative with
  | [] => Ok best_ts
  | (jump_idx, jump_ts) :: rest =>
      match end_ with
      | VInt n =>
          if Z.of_nat jump_idx <? n
          then best_ts_loop rest end_ (Some jump_ts)
          else Ok best_ts
      | _ => Raise TypeError
      end
  end.

(** The loop that writes the time jumps into the archived history; it
    returns the entries as the loop leaves them, also when it raises. *)
Fixpoint apply_time_jumps (cumulative : list (nat * string)) (t : value)
    (entries : list Entry) : list Entry * Result unit :=
  match entries with
  | [] => ([], Ok tt)
  | e :: rest =>
      match e !! "end" with
      | None =>
          let '(rest', r) := apply_time_jumps cumulative t rest in
          (e :: rest', r)
      | Some end_ =>
          match best_ts_loop cumulative end_ None with
          | Raise x => (e :: rest, Raise x)
          | Ok best_ts =>
              if negb (falsy_opt best_ts) then
                let t' := VStr (default "" best_ts) in
                let '(rest', r) := apply_time_jumps cumulative t' rest in
                (<["ts" := t']> e :: rest', r)
              else
                let '(rest', r) := apply_time_jumps cumulative t rest in
                (<["ts" := t]> e :: rest', r)
          end
      end
  end.

(** [Scene._fix_time] *)
Definition _fix_time (s : Scene) : Scene * Result unit :=
  let starting_time := starting_time_loop (archived_history s) (VStr "PT0S") in
  match cumulate starting_time (time_jumps_from 0 (history s)) with
  | Raise e => (s, Raise e)
  | Ok cumulative =>
      match last cumulative with
      | None => (set_ts starting_time s, Ok tt)
      | Some (_, ending_time) =>
          match apply_time_jumps cumulative starting_time (archived_history s) with
          | (entries, Ok _) =>
              (set_ts (VStr ending_time) (set_archived_history entries s), Ok tt)
          | (entries, Raise e) => (set_archived_history entries s, Raise e)
          end
      end
  end.

(** [Scene.fix_time] *)
Definition fix_time (s : Scene) : Scene :=
  match _fix_time s with
  | (s', Ok _) => s'
  | (s', Raise _) => set_ts (ts s) s'
  end.

End Time.

(** ** The context window assembler *)

(** The keyword argument [keep_director]: a flag or a source name. *)
Inductive KeepDirector : Type :=
| KeepFlag (b : bool)
| KeepSource (source : string).

(** The keyword arguments of [context_history]. *)
Record ContextOptions : Type := {
  keep_director : KeepDirector;
  keep_context_investigation : bool;
  include_reinfocements : bool;
  assured_dialogue_num : Z;
  chapter_labels : bool
}.

(** The defaults of [kwargs.get]. *)
Definition default_options : ContextOptions :=
  {| keep_director := KeepFlag false; keep_context_investigation := true;
     include_reinfocements := true; assured_dialogue_num := 5;
     chapter_labels := false |}.

(** [int(0.5 * budget)]: the product is exact in floating point for
    [|budget| <= 2^53], and [int] truncates towards zero. *)
Definition half_budget (budget : Z) : Z := Z.quot budget 2.

(** The three skipping rules at the head of the dialogue loop, after the
    test on [hidden]. *)
Definition skipped_in_dialogue (o : ContextOptions) (m : SceneMessage) : bool :=
  match msg_class m with
  | ReinforcementMessage => negb (include_reinfocements o)
  | DirectorMessage action =>
      match keep_director o with
      | KeepFlag false => true
      | KeepFlag true => String.eqb (Director.character_name action m) ""
      | KeepSource source =>
          if String.eqb source "" then true
          else if String.eqb (Director.character_name action m) "" then true
          else negb (String.eqb (msg_source m) source)
      end
  | ContextInvestigationMessage _ => negb (keep_context_investigation o)
  | _ => false
  end.

(** [x + 1] for a value read from an entry. *)
Definition plus_one (v : value) : Result Z :=
  match v with
  | VInt n => Ok (n + 1)
  | _ => Raise TypeError
  end.

(** [i < v] for an index [i]. *)
Definition index_below (i : nat) (v : value) : Result bool :=
  match v with
  | VInt n => Ok (Z.of_nat i <? n)
  | _ => Raise TypeError
  end.

Section Context.

(** [util.count_tokens] on a string and on a message,
    [util.iso8601_diff_to_human], [util.prompt.condensed] and the editor
    agent's [fix_exposition_in_text] live in modules that are not embedded
    here, so the assembler is stated over any such functions. *)
Variable count_tokens_text : string -> nat.
Variable count_tokens_message : SceneMessage -> nat.
Variable iso8601_diff_to_human : value -> value -> Result string.
Variable condensed : string -> string.
Variable fix_exposition_in_text : string -> string.

(** Modelled from the spec: [util.count_tokens] on a list is missing from
    the sources; the token counting capability maps a list to an integer
    count, taken here as the sum of the counts of its elements. *)
Definition count_tokens (parts : list string) : Z :=
  Z.of_nat (foldr (fun p n => (count_tokens_text p + n)%nat) O parts).

(** [Scene.get_intro()], called without an argument. *)
Definition get_intro (s : Scene) : string :=
  let text :=
    match player_name (helpers s) with
    | Some name =>
        Str.replace "{{char}}" name (Str.replace "{{user}}" name (intro s))
    | None => intro s
    end in
  if fix_exposition_enabled (helpers s) && fix_exposition_narrator (helpers s)
  then
    fix_exposition_in_text
      (if negb (Str.contains_char (ascii_of_nat 34) text)
          && negb (Str.contains_char "*"%char text)
       then "*" +:+ text +:+ "*" else text)
  else text.

(** The label of an archived entry in the branch without layers: the
    [try] block and its fallback; a text that is not a string cannot be
    counted or condensed. *)
Definition archive_text (s : Scene) (e : Entry) : Result string :=
  match (t <- getitem e "ts" ;;
         time_message <- iso8601_diff_to_human t (ts s) ;;
         text <- getitem e "text" ;;
         Ok (time_message +:+ ": " +:+ py_str text)) with
  | Ok text => Ok text
  | Raise _ =>
      text <- getitem e "text" ;;
      match text with
      | VStr t => Ok t
      | _ => Raise TypeError
      end
  end.

(** The context loop without layers, about to look at entry [i - 1]. *)
Fixpoint archive_context_loop (s : Scene) (budget_context : Z) (i : nat)
    (parts_context : list string) : Result (list string) :=
  match i with
  | O => Ok parts_context
  | S k =>
      match archived_history s !! k with
      | None => Ok parts_context
      | Some e =>
          match dict_get e "end" with
          | VNone => archive_context_loop s budget_context k parts_context
          | _ =>
              text <- archive_text s e ;;
              if budget_context <? count_tokens parts_context + count_tokens [text]
              then Ok parts_context
              else archive_context_loop s budget_context k
                     (condensed text :: parts_context)
          end
      end
  end.

(** The loop over the entries of one layer; [k] numbers the chapters and
    [last_entry] is the loop variable as the loop leaves it. *)
Fixpoint layer_entries_loop (s : Scene) (o : ContextOptions)
    (layer_number : Z) (entries : list Entry) (k : Z)
    (parts_context : list string) (last_entry : option Entry)
    : Result (list string * option Entry) :=
  match entries with
  | [] => Ok (parts_context, last_entry)
  | e :: rest =>
      ts_start <- getitem e "ts_start" ;;
      time_message_start <- iso8601_diff_to_human ts_start (ts s) ;;
      ts_end <- getitem e "ts_end" ;;
      time_message_end <- iso8601_diff_to_human ts_end (ts s) ;;
      let time_message :=
        if String.eqb time_message_start time_message_end
        then time_message_start
        else "Start:" +:+ time_message_start +:+ ", End:" +:+ time_message_end in
      text <- getitem e "text" ;;
      let text := time_message +:+ " " +:+ py_str text in
      let text :=
        if chapter_labels o
        then "### Chapter " +:+ pretty layer_number +:+ "." +:+ pretty (k + 1)
               +:+ NL +:+ text
        else text in
      layer_entries_loop s o layer_number rest (k + 1)
        (parts_context ++ [text])%list (Some e)
  end.

(** The loop over the layers, about to look at layer [i - 1]. *)
Fixpoint layers_loop (s : Scene) (o : ContextOptions) (i : nat)
    (next_layer_start : option Z) (parts_context : list string)
    (last_entry : option Entry) : Result (list string) :=
  match i with
  | O => Ok parts_context
  | S j =>
      match layered_history s !! j with
      | None => Ok parts_context
      | Some [] => layers_loop s o j next_layer_start parts_context last_entry
      | Some layer =>
          let start := default 0 next_layer_start in
          walked <-
            layer_entries_loop s o
              (Z.of_nat (length (layered_history s)) - Z.of_nat j)
              (slice_from start layer) start parts_context last_entry ;;
          let '(parts_context', last_entry') := walked in
          match last_entry' with
          | None => Raise OtherException
          | Some e =>
              end_ <- getitem e "end" ;;
              next <- plus_one end_ ;;
              layers_loop s o j (Some next) parts_context' last_entry'
          end
      end
  end.

(** The archived entries that no layer covers yet. *)
Fixpoint unlayered_archive_loop (s : Scene) (entries : list Entry)
    (parts_context : list string) : Result (list string) :=
  match entries with
  | [] => Ok parts_context
  | e :: rest =>
      t <- getitem e "ts" ;;
      time_message <- iso8601_diff_to_human t (ts s) ;;
      text <- getitem e "text" ;;
      unlayered_archive_loop s rest
        (parts_context ++ [condensed (time_message +:+ ": " +:+ py_str text)])%list
  end.

(** The [while] loop that chops entries off the top of the context. *)
Fixpoint trim_context (budget_context : Z) (parts_context : list string)
    : Result (list string) :=
  match parts_context with
  | [] => if budget_context <? count_tokens [] then Raise IndexError else Ok []
  | _ :: rest =>
      if budget_context <? count_tokens parts_context
      then trim_context budget_context rest
      else Ok parts_context
  end.

(** The context lane. *)
Definition context_lane (s : Scene) (o : ContextOptions) (budget_context : Z)
    : Result (list string) :=
  parts_context <-
    match layered_history s with
    | (_ :: _) as base_layer :: _ =>
        if layered_history_enabled (helpers s) then
          parts <- layers_loop s o (length (layered_history s)) None [] None ;;
          match last base_layer with
          | None => Ok parts
          | Some e =>
              end_ <- getitem e "end" ;;
              base_layer_start <- plus_one end_ ;;
              unlayered_archive_loop s
                (slice_from base_layer_start (archived_history s))
                (if chapter_labels o then parts ++ ["### Current" +:+ NL]
                 else parts)%list
          end
        else archive_context_loop s budget_context
               (length (archived_history s)) []
    | _ => archive_context_loop s budget_context
             (length (archived_history s)) []
    end ;;
  trim_context budget_context parts_context.

(** [summarized_to] as first read from the archive. *)
Definition read_summarized_to (s : Scene) : value :=
  match last (archived_history s) with
  | None => VInt 0
  | Some e => default (VInt 0) (e !! "end")
  end.

(** [if summarized_to and summarized_to >= history_len: summarized_to = 0] *)
Definition reset_summarized_to (v : value) (history_len : nat) : Result value :=
  match v with
  | VNone => Ok VNone
  | VInt n =>
      if negb (n =? 0) && (Z.of_nat history_len <=? n) then Ok (VInt 0)
      else Ok (VInt n)
  | VStr t => if String.eqb t "" then Ok (VStr t) else Raise TypeError
  end.

Definition summarized_to (s : Scene) : Result value :=
  reset_summarized_to (read_summarized_to s) (length (history s)).

(** The dialogue loop, about to look at message [i - 1]; it returns the
    rendered messages and [dialogue_messages_collected]. *)
Fixpoint dialogue_loop (s : Scene) (o : ContextOptions) (budget_dialogue : Z)
    (cutoff : value) (i : nat) (parts_dialogue : list string)
    (dialogue_messages_collected : Z) : Result (list string * Z) :=
  match i with
  | O => Ok (parts_dialogue, dialogue_messages_collected)
  | S k =>
      match history s !! k with
      | None => Ok (parts_dialogue, dialogue_messages_collected)
      | Some m =>
          below <- index_below k cutoff ;;
          if below && (assured_dialogue_num o <=? dialogue_messages_collected)
          then Ok (parts_dialogue, dialogue_messages_collected)
          else if hidden m || skipped_in_dialogue o m
          then dialogue_loop s o budget_dialogue cutoff k parts_dialogue
                 dialogue_messages_collected
          else if budget_dialogue
                    <? count_tokens parts_dialogue
                       + Z.of_nat (count_tokens_message m)
          then Ok (parts_dialogue, dialogue_messages_collected)
          else
            rendered <- as_format m (conversation_format (helpers s))
                          (actor_direction_mode (helpers s)) ;;
            dialogue_loop s o budget_dialogue cutoff k
              (rendered :: parts_dialogue)
              (if is_character m then dialogue_messages_collected + 1
               else dialogue_messages_collected)
      end
  end.

(** The dialogue lane. *)
Definition dialogue_lane (s : Scene) (o : ContextOptions) (budget_dialogue : Z)
    : Result (list string * Z) :=
  cutoff <- summarized_to s ;;
  dialogue_loop s o budget_dialogue cutoff (length (history s)) [] 0.

(** The dialogue loop that treats the whole history as unsummarized, to
    compare [dialogue_loop] with: the same loop without the test on the
    summarized cutoff, so that only the dialogue budget can stop it. *)
Fixpoint dialogue_loop_budget_only (s : Scene) (o : ContextOptions)
    (budget_dialogue : Z) (i : nat) (parts_dialogue : list string)
    (dialogue_messages_collected : Z) : Result (list string * Z) :=
  match i with
  | O => Ok (parts_dialogue, dialogue_messages_collected)
  | S k =>
      match history s !! k with
      | None => Ok (parts_dialogue, dialogue_messages_collected)
      | Some m =>
          if hidden m || skipped_in_dialogue o m
          then dialogue_loop_budget_only s o budget_dialogue k parts_dialogue
                 dialogue_messages_collected
          else if budget_dialogue
                    <? count_tokens parts_dialogue
                       + Z.of_nat (count_tokens_message m)
          then Ok (parts_dialogue, dialogue_messages_collected)
          else
            rendered <- as_format m (conversation_format (helpers s))
                          (actor_direction_mode (helpers s)) ;;
            dialogue_loop_budget_only s o budget_dialogue k
              (rendered :: parts_dialogue)
              (if is_character m then dialogue_messages_collected + 1
               else dialogue_messages_collected)
      end
  end.

(** [Scene.context_history]; the chapter numbers it stores in the
    active agent's state are left out. *)
Definition context_history (s : Scene) (budget : Z) (o : ContextOptions)
    : Result (list string) :=
  parts_context <- context_lane s o (half_budget budget) ;;
  dialogue <- dialogue_lane s o (half_budget budget) ;;
  let parts_dialogue := fst dialogue in
  let parts_context :=
    if count_tokens (parts_context ++ parts_dialogue) <? 1024 then
      let intro_text := get_intro s in
      if String.eqb intro_text "" then parts_context
      else intro_text :: parts_context
    else parts_context in
  Ok (parts_context ++ parts_dialogue)%list.

End Context.

(** ** The turn-taking game loop *)

(** A character as the loop reads it, and an actor: [actor_is_player]
    is [isinstance(actor, Player)]. *)
Record Character_ : Type := {
  name : string;
  is_player : bool;
  memory_dirty : bool
}.

Record Actor : Type := {
  actor_is_player : bool;
  character : option Character_
}.

(** What an awaited call returns: [actor.talk()] returns nothing, a text,
    one message or a list of messages; [command.execute] returns a flag. *)
Inductive Reply : Type :=
| NoReply
| Text (t : string)
| OneMessage (m : SceneMessage)
| Messages (l : list SceneMessage)
| Flag (b : bool).

(** The awaited calls of one round of the loop. *)
Inductive Await : Type :=
| EnsureMemoryDb
| LoadActivePins
| SignalGameLoop
| CommitToMemory (a : Actor)
| CallAutomatedActions
| SignalPlayerTurnStart
| Talk (a : Actor)
| ExecuteCommand (message : Reply)
| SignalActorIter (a : Actor)
| Save
| EmitStatus.

(** [not message] *)
Definition empty_reply (r : Reply) : bool :=
  match r with
  | NoReply => true
  | Text t => String.eqb t ""
  | OneMessage m => String.eqb (msg_message m) ""
  | Messages l => match l with [] => true | _ => false end
  | Flag b => negb b
  end.

(** [type(message) == list] *)
Definition is_list (r : Reply) : bool :=
  match r with Messages _ => true | _ => false end.

Section GameLoop.

(** Everything outside the loop: agents, clients, the player's input. *)
Variable World : Type.

(** The attributes of the scene that the loop reads or writes. *)
Record SceneState : Type := {
  world : World;
  actors : list Actor;
  active : bool;
  auto_progress : bool;
  auto_save : bool;
  next_actor : option string;
  active_actor : option Actor;
  most_recent_ai_actor : option Actor;
  saved : bool;
  cancel_requested : bool
}.

(** The scene together with the local variables of [_run_game_loop]
    that live across rounds. *)
Record LoopState : Type := {
  scene : SceneState;
  skip_to_player : bool;
  signal_game_loop : bool
}.

Definition set_scene (sc : SceneState) (st : LoopState) : LoopState :=
  {| scene := sc; skip_to_player := skip_to_player st;
     signal_game_loop := signal_game_loop st |}.

Definition set_skip_to_player (b : bool) (st : LoopState) : LoopState :=
  {| scene := scene st; skip_to_player := b;
     signal_game_loop := signal_game_loop st |}.

Definition set_signal_game_loop (b : bool) (st : LoopState) : LoopState :=
  {| scene := scene st; skip_to_player := skip_to_player st;
     signal_game_loop := b |}.

Definition set_next_actor (n : option string) (sc : SceneState) : SceneState :=
  {| world := world sc; actors := actors sc; active := active sc;
     auto_progress := auto_progress sc; auto_save := auto_save sc;
     next_actor := n; active_actor := active_actor sc;
     most_recent_ai_actor := most_recent_ai_actor sc; saved := saved sc;
     cancel_requested := cancel_requested sc |}.

Definition set_cancel_requested (b : bool) (sc : SceneState) : SceneState :=
  {| world := world sc; actors := actors sc; active := active sc;
     auto_progress := auto_progress sc; auto_save := auto_save sc;
     next_actor := next_actor sc; active_actor := active_actor sc;
     most_recent_ai_actor := most_recent_ai_actor sc; saved := saved sc;
     cancel_requested := b |}.

Definition set_active_actor (a : Actor) (sc : SceneState) : SceneState :=
  {| world := world sc; actors := actors sc; active := active sc;
     auto_progress := auto_progress sc; auto_save := auto_save sc;
     next_actor := next_actor sc; active_actor := Some a;
     most_recent_ai_actor := most_recent_ai_actor sc; saved := saved sc;
     cancel_requested := cancel_requested sc |}.

(** [Scene.process_npc_dialogue], without the messages it emits. *)
Definition process_npc_dialogue (a : Actor) (sc : SceneState) : SceneState :=
  {| world := world sc; actors := actors sc; active := active sc;
     auto_progress := auto_progress sc; auto_save := auto_save sc;
     next_actor := next_actor sc; active_actor := active_actor sc;
     most_recent_ai_actor := Some a; saved := false;
     cancel_requested := cancel_requested sc |}.

(** An awaited call runs outside the loop: it may change the scene (not
    the loop's local variables), and it returns a reply or raises. *)
Variable run : Await -> SceneState -> SceneState * Result Reply.

(** A step of the loop: the state it leaves and what it returns or raises. *)
Definition Step (A : Type) : Type := LoopState -> LoopState * Result A.

Definition ret {A : Type} (a : A) : Step A := fun st => (st, Ok a).

Definition and_then {A B : Type} (m : Step A) (k : A -> Step B) : Step B :=
  fun st =>
    match m st with
    | (st', Ok a) => k a st'
    | (st', Raise e) => (st', Raise e)
    end.

Definition update (f : LoopState -> LoopState) : Step unit :=
  fun st => (f st, Ok tt).

Definition update_scene (f : SceneState -> SceneState) : Step unit :=
  fun st => (set_scene (f (scene st)) st, Ok tt).

Definition read {A : Type} (f : LoopState -> A) : Step A :=
  fun st => (st, Ok (f st)).

Definition await (a : Await) : Step Reply :=
  fun st =>
    let '(sc, r) := run a (scene st) in (set_scene sc st, r).

Notation "x <~ m ;; k" := (and_then m (fun x => k))
  (at level 100, m at next level, right associativity).

(** How the body of [for actor in self.actors] ends. *)
Inductive Flow : Type := NextActor | BreakLoop.

(** The [try] around [actor.talk()]: only [ActedAsCharacter] is caught,
    and the loop over the actors is left. *)
Definition talk (a : Actor) : Step (option Reply) :=
  fun st =>
    match await (Talk a) st with
    | (st', Ok r) => (st', Ok (Some r))
    | (st', Raise ActedAsCharacter) => (set_signal_game_loop false st', Ok None)
    | (st', Raise e) => (st', Raise e)
    end.

(** The body of [for actor in self.actors]. *)
Definition actor_turn (turn_start : bool) (a : Actor) : Step Flow :=
  skip <~ read skip_to_player ;;
  if skip && negb (actor_is_player a) then ret NextActor
  else
    _ <~ update (set_skip_to_player false) ;;
    match character a with
    | None => ret NextActor
    | Some c =>
        _ <~ (if memory_dirty c
              then (_ <~ await (CommitToMemory a) ;; ret tt)
              else ret tt) ;;
        auto <~ read (fun st => auto_progress (scene st)) ;;
        if negb auto && negb (is_player c) then ret NextActor
        else
          next <~ read (fun st => next_actor (scene st)) ;;
          if negb (falsy_opt next) && negb (bool_decide (next = Some (name c)))
             && auto
          then ret NextActor
          else
            _ <~ update_scene (set_active_actor a) ;;
            _ <~ (if negb (is_player c)
                  then (_ <~ await CallAutomatedActions ;; ret tt)
                  else if turn_start
                       then (_ <~ await SignalPlayerTurnStart ;; ret tt)
                       else ret tt) ;;
            talked <~ talk a ;;
            match talked with
            | None => ret BreakLoop
            | Some message =>
                if empty_reply message then ret NextActor
                else if actor_is_player a && negb (is_list message) then
                  handled <~ await (ExecuteCommand message) ;;
                  if negb (empty_reply handled)
                  then (_ <~ update (set_signal_game_loop false) ;;
                        ret BreakLoop)
                  else
                    _ <~ await CallAutomatedActions ;;
                    _ <~ await (SignalActorIter a) ;;
                    ret NextActor
                else
                  _ <~ update_scene (process_npc_dialogue a) ;;
                  _ <~ await (SignalActorIter a) ;;
                  ret NextActor
            end
    end.

(** [for actor in self.actors] *)
Fixpoint actors_loop (turn_start : bool) (l : list Actor) : Step unit :=
  match l with
  | [] => ret tt
  | a :: rest =>
      flow <~ actor_turn turn_start a ;;
      match flow with
      | BreakLoop => ret tt
      | NextActor => actors_loop turn_start rest
      end
  end.

(** The body of the [try] of one round of the loop. *)
Definition round_body : Step unit :=
  _ <~ await EnsureMemoryDb ;;
  _ <~ await LoadActivePins ;;
  turn_start <~ read signal_game_loop ;;
  _ <~ (if turn_start then (_ <~ await SignalGameLoop ;; ret tt) else ret tt) ;;
  _ <~ update (set_signal_game_loop true) ;;
  l <~ read (fun st => actors (scene st)) ;;
  _ <~ actors_loop turn_start l ;;
  auto <~ read (fun st => auto_save (scene st)) ;;
  _ <~ (if auto then (_ <~ await Save ;; ret tt) else ret tt) ;;
  _ <~ await EmitStatus ;;
  ret tt.

(** How one round ends: the loop goes on, or the exception leaves
    [_run_game_loop]. *)
Inductive RoundEnd : Type :=
| GoOn (st : LoopState)
| Leave (e : exn) (st : LoopState).

(** The [except] clauses, in their order; the clause for
    [GenerationCancelled] comes first, whatever its base class. The last
    clause is [except Exception]: what is no [Exception] is caught by no
    clause and leaves the loop. *)
Definition handle (e : exn) (st : LoopState) : RoundEnd :=
  match e with
  | GenerationCancelled =>
      GoOn (set_scene
              (set_cancel_requested false (set_next_actor None (scene st)))
              (set_skip_to_player true (set_signal_game_loop false st)))
  | TalemateInterrupt => Leave TalemateInterrupt st
  | LLMAccuracyError => GoOn st
  | TalemateError => GoOn st
  | ClientDisabledError =>
      GoOn (set_skip_to_player true (set_signal_game_loop false st))
  | _ => if is_exception e then GoOn st else Leave e st
  end.

(** One round of [while continue_scene and self.active]. *)
Definition game_round (st : LoopState) : RoundEnd :=
  match round_body st with
  | (st', Ok _) => GoOn st'
  | (st', Raise e) => handle e st'
  end.

(** How a run of the loop ends within a number of rounds. *)
Inductive LoopEnd : Type :=
| Finished (st : LoopState)
| Left (e : exn) (st : LoopState)
| StillRunning (st : LoopState).

(** The [while] loop, for at most [rounds] rounds; [continue_scene] is
    never assigned after its initialisation to [True]. *)
Fixpoint game_loop (rounds : nat) (st : LoopState) : LoopEnd :=
  match rounds with
  | O => StillRunning st
  | S n =>
      if active (scene st) then
        match game_round st with
        | GoOn st' => game_loop n st'
        | Leave e st' => Left e st'
        end
      else Finished st
  end.

End GameLoop.

Arguments world {World} _.
Arguments actors {World} _.
Arguments active {World} _.
Arguments auto_progress {World} _.
Arguments auto_save {World} _.
Arguments next_actor {World} _.
Arguments active_actor {World} _.
Arguments most_recent_ai_actor {World} _.
Arguments saved {World} _.
Arguments cancel_requested {World} _.
Arguments scene {World} _.
Arguments skip_to_player {World} _.
Arguments signal_game_loop {World} _.
Arguments set_scene {World} _ _.
Arguments set_skip_to_player {World} _ _.
Arguments set_signal_game_loop {World} _ _.
Arguments set_next_actor {World} _ _.
Arguments set_cancel_requested {World} _ _.
Arguments set_active_actor {World} _ _.
Arguments process_npc_dialogue {World} _ _.
Arguments ret {World A} _ _.
Arguments and_then {World A B} _ _ _.
Arguments update {World} _ _.
Arguments update_scene {World} _ _.
Arguments read {World A} _ _.
Arguments await {World} _ _ _.
Arguments talk {World} _ _ _.
Arguments actor_turn {World} _ _ _ _.
Arguments actors_loop {World} _ _ _ _.
Arguments round_body {World} _ _.
Arguments GoOn {World} _.
Arguments Leave {World} _ _.
Arguments handle {World} _ _.
Arguments game_round {World} _ _.
Arguments Finished {World} _.
Arguments Left {World} _ _.
Arguments StillRunning {World} _.
Arguments game_loop {World} _ _ _.

(** ** Message flags *)

Definition set_flags (f : Z) (m : SceneMessage) : SceneMessage :=
  {| msg_message := msg_message m; msg_id := msg_id m;
     msg_source := msg_source m; msg_meta := msg_meta m; msg_flags := f;
     msg_class := msg_class m |}.

(** [message.hide()]: [self.flags |= Flags.HIDDEN] *)
Definition hide (m : SceneMessage) : SceneMessage :=
  set_flags (Z.lor (msg_flags m) HIDDEN) m.

(** [message.unhide()]: [self.flags &= ~Flags.HIDDEN] *)
Definition unhide (m : SceneMessage) : SceneMessage :=
  set_flags (Z.land (msg_flags m) (flags_invert HIDDEN)) m.

(** [message.secondary_source] *)
Definition secondary_source (m : SceneMessage) : string :=
  match msg_class m with
  | CharacterMessage _ => Character.character_name m
  | _ => msg_source m
  end.

(** ** Queries and removals on the history *)

(** [l[start:stop]] with the indices of Python: a negative index counts
    from the end, and both are clamped to the list. *)
Definition clamp_index (len : nat) (i : Z) : nat :=
  if i <? 0 then Z.to_nat (Z.max 0 (Z.of_nat len + i))
  else Z.to_nat (Z.min i (Z.of_nat len)).

Definition slice {A : Type} (start : Z) (stop : option Z) (l : list A) : list A :=
  let a := clamp_index (length l) start in
  let b := match stop with
           | Some e => clamp_index (length l) e
           | None => length l
           end in
  take (b - a) (drop a l).

(** [l.remove(x)]: the first element equal to [x] goes; messages are
    dataclasses and compare by their fields. *)
Fixpoint remove_first (x : SceneMessage) (l : list SceneMessage)
    : Result (list SceneMessage) :=
  match l with
  | [] => Raise ValueError
  | y :: rest =>
      if bool_decide (y = x) then Ok rest
      else rest' <- remove_first x rest ;; Ok (y :: rest')
  end.

(** The test of [pop_history] on a message. *)
Definition pop_matches (typ_ : string) (source : option string)
    (m : SceneMessage) : bool :=
  String.eqb (typ m) typ_
  && match source with
     | Some src => String.eqb (msg_source m) src
     | None => true
     end.

(** [max_iterations and iterations >= max_iterations] *)
Definition scan_exhausted (max_iterations : option Z) (iterations : Z) : bool :=
  match max_iterations with
  | Some n => negb (n =? 0) && (n <=? iterations)
  | None => false
  end.

(** The first loop of [pop_history] over the messages in the order of
    [iter_range]. *)
Fixpoint pop_scan (typ_ : string) (source : option string) (all : bool)
    (max_iterations : option Z) (candidates : list SceneMessage)
    (iterations : Z) (to_remove : list SceneMessage) : list SceneMessage :=
  match candidates with
  | [] => to_remove
  | m :: rest =>
      if pop_matches typ_ source m && negb all then to_remove ++ [m]
      else
        let to_remove' :=
          if pop_matches typ_ source m then to_remove ++ [m] else to_remove in
        if scan_exhausted max_iterations (iterations + 1) then to_remove'
        else pop_scan typ_ source all max_iterations rest (iterations + 1)
               to_remove'
  end.

(** The second loop of [pop_history]. *)
Fixpoint remove_all (to_remove h : list SceneMessage)
    : list SceneMessage * Result unit :=
  match to_remove with
  | [] => (h, Ok tt)
  | m :: rest =>
      match remove_first m h with
      | Ok h' => remove_all rest h'
      | Raise e => (h, Raise e)
      end
  end.

(** [Scene.pop_history] *)
Definition pop_history (typ_ : string) (source : option string) (all : bool)
    (max_iterations : option Z) (reverse : bool) (s : Scene)
    : Scene * Result unit :=
  let candidates := if reverse then history s else rev (history s) in
  let to_remove := pop_scan typ_ source all max_iterations candidates 0 [] in
  let '(h, r) := remove_all to_remove (history s) in
  (set_history h s, r).

(** The loop of [find_message], about to look at index [i - 1]. *)
Fixpoint find_message_loop (h : list SceneMessage) (typ_ source : string)
    (max_iterations : Z) (i : nat) (iterations : Z) : option SceneMessage :=
  match i with
  | O => None
  | S k =>
      match h !! k with
      | None => None
      | Some m =>
          if String.eqb (typ m) typ_ && String.eqb (msg_source m) source
          then Some m
          else if max_iterations <=? iterations + 1 then None
          else find_message_loop h typ_ source max_iterations k (iterations + 1)
      end
  end.

(** [Scene.find_message] *)
Definition find_message (s : Scene) (typ_ source : string)
    (max_iterations : Z) : option SceneMessage :=
  find_message_loop (history s) typ_ source max_iterations
    (length (history s)) 0.

(** [Scene.message_index] *)
Definition message_index (s : Scene) (message_id : Z) : Z :=
  match rfind_index (fun m => msg_id m =? message_id) (history s)
          (length (history s)) with
  | Some idx => Z.of_nat idx
  | None => -1
  end.

(** [Scene.get_message] *)
Definition get_message (s : Scene) (message_id : Z) : option SceneMessage :=
  match rfind_index (fun m => msg_id m =? message_id) (history s)
          (length (history s)) with
  | Some idx => history s !! idx
  | None => None
  end.

(** [Scene.last_player_message] *)
Definition last_player_message (s : Scene) : option SceneMessage :=
  match rfind_index
          (fun m => is_character m && String.eqb (msg_source m) "player")
          (history s) (length (history s)) with
  | Some idx => history s !! idx
  | None => None
  end.

(** The test of [last_message_of_type] on a message. *)
Definition of_type (types : list string) (source : option string)
    (m : SceneMessage) : bool :=
  bool_decide (typ m ∈ types)
  && (bool_decide (source = Some (msg_source m)) || falsy_opt source).

(** The loop of [last_message_of_type], about to look at index [i - 1]. *)
Fixpoint last_message_of_type_loop (h : list SceneMessage)
    (types : list string) (source : option string) (max_iterations : option Z)
    (i : nat) (num_iterations : Z) : option SceneMessage :=
  match i with
  | O => None
  | S k =>
      match h !! k with
      | None => None
      | Some m =>
          if match max_iterations with
             | Some n => n <=? num_iterations
             | None => false
             end
          then None
          else if of_type types source m then Some m
          else last_message_of_type_loop h types source max_iterations k
                 (num_iterations + 1)
      end
  end.

(** [Scene.last_message_of_type]; a single type is passed as a list of
    one. *)
Definition last_message_of_type (s : Scene) (types : list string)
    (source : option string) (max_iterations : option Z)
    : option SceneMessage :=
  last_message_of_type_loop (history s) types source max_iterations
    (length (history s)) 0.

(** [Scene.reset], on the history and the archive. *)
Definition reset (s : Scene) : Scene :=
  set_archived_history
    (filter (fun e => dict_get e "end" = VNone) (archived_history s))
    (set_history [] s).

Section Recent.

(** [util.count_tokens] on a message. *)
Variable count_tokens_message : SceneMessage -> nat.

(** The loop of [recent_history], about to look at index [i - 1]. *)
Fixpoint recent_history_loop (h : list SceneMessage) (max_tokens : Z)
    (i : nat) (recent : list SceneMessage) (total_tokens : Z)
    : list SceneMessage :=
  match i with
  | O => recent
  | S k =>
      match h !! k with
      | None => recent
      | Some m =>
          let total_tokens' := total_tokens + Z.of_nat (count_tokens_message m) in
          if max_tokens <=? total_tokens' then m :: recent
          else recent_history_loop h max_tokens k (m :: recent) total_tokens'
      end
  end.

(** [Scene.recent_history] *)
Definition recent_history (s : Scene) (max_tokens : Z) : list SceneMessage :=
  recent_history_loop (history s) max_tokens (length (history s)) [] 0.

End Recent.

(** ** Incremental time sync *)

(** [l[v:]] for a value read from an entry: [None] stands for the start,
    anything but an integer or [None] is no index. *)
Definition slice_from_value {A : Type} (v : value) (l : list A)
    : Result (list A) :=
  match v with
  | VNone => Ok l
  | VInt n => Ok (slice_from n l)
  | VStr _ => Raise TypeError
  end.

(** The search of [sync_time] for the most recent archive entry with a
    time stamp, about to look at entry [i - 1]. *)
Fixpoint baseline_loop (a : list Entry) (i : nat) (t : value) : value :=
  match i with
  | O => t
  | S k =>
      match a !! k with
      | None => t
      | Some e =>
          if truthy (dict_get e "ts") then dict_get e "ts"
          else baseline_loop a k t
      end
  end.

Section Sync.

Variable isodate_add : value -> string -> Result string.

(** The replay loop of [sync_time]. *)
Fixpoint replay (messages : list SceneMessage) (s : Scene)
    : Scene * Result unit :=
  match messages with
  | [] => (s, Ok tt)
  | m :: rest =>
      match msg_class m with
      | TimePassageMessage t =>
          match advance_time isodate_add t s with
          | (s', Ok _) => replay rest s'
          | (s', Raise e) => (s', Raise e)
          end
      | _ => replay rest s
      end
  end.

(** [Scene.sync_time] *)
Definition sync_time (s : Scene) : Scene * Result unit :=
  let s0 := set_ts (VStr "PT0S") s in
  let s1 :=
    set_ts (baseline_loop (archived_history s0)
              (length (archived_history s0)) (ts s0)) s0 in
  let end_ :=
    match last (archived_history s1) with
    | Some e => default (VInt 0) (e !! "end")
    | None => VInt 0
    end in
  match slice_from_value end_ (history s1) with
  | Ok messages => replay messages s1
  | Raise e => (s1, Raise e)
  end.

(** [Scene.delete_message]; the events it emits are left out. *)
Definition delete_message (message_id : Z) (s : Scene) : Scene * Result unit :=
  match list_find (fun m => msg_id m = message_id) (history s) with
  | Some (i, m) =>
      let s' := set_history (delete i (history s)) s in
      if is_time_passage m then sync_time s' else (s', Ok tt)
  | None => (s, Ok tt)
  end.

End Sync.

Section CalcTime.

Variable iso8601_add : value -> string -> Result string.

(** The loop of [calc_time]. *)
Fixpoint calc_time_loop (messages : list SceneMessage) (t : string)
    (found : bool) : Result (string * bool) :=
  match messages with
  | [] => Ok (t, found)
  | m :: rest =>
      match msg_class m with
      | TimePassageMessage jump =>
          t' <- iso8601_add (VStr t) jump ;;
          calc_time_loop rest t' true
      | _ => calc_time_loop rest t found
      end
  end.

(** [Scene.calc_time] *)
Definition calc_time (s : Scene) (start_idx : Z) (end_idx : option Z)
    : Result (option string) :=
  r <- calc_time_loop (slice start_idx end_idx (history s)) "PT0S" false ;;
  Ok (if snd r then Some (fst r) else None).

End CalcTime.

(** ** ISO 8601 durations *)

Module Iso8601.

Definition digit (c : ascii) : option Z :=
  let n := nat_of_ascii c in
  if ((48 <=? n) && (n <=? 57))%nat then Some (Z.of_nat n - 48) else None.

(** The seconds a designator stands for, before and after the [T]. *)
Definition unit_seconds (in_time : bool) (c : ascii) : option Z :=
  if in_time then
    if Ascii.eqb c "H" then Some 3600
    else if Ascii.eqb c "M" then Some 60
    else if Ascii.eqb c "S" then Some 1
    else None
  else
    if Ascii.eqb c "W" then Some 604800
    else if Ascii.eqb c "D" then Some 86400
    else None.

(** The fields after the [P]: [number] is the number being read and
    [fields] counts the fields read so far. *)
Fixpoint parse_fields (s : string) (in_time : bool) (number : option Z)
    (fields : nat) (total : Z) : option Z :=
  match s with
  | EmptyString =>
      match number, fields with
      | None, S _ => Some total
      | _, _ => None
      end
  | String c rest =>
      match digit c with
      | Some d =>
          parse_fields rest in_time (Some (10 * default 0 number + d))
            fields total
      | None =>
          match number with
          | None =>
              if Ascii.eqb c "T" && negb in_time
              then parse_fields rest true None fields total
              else None
          | Some n =>
              match unit_seconds in_time c with
              | Some u => parse_fields rest in_time None (S fields) (total + n * u)
              | None => None
              end
          end
      end
  end.

(** Modelled from the spec: the duration parser behind [util.iso8601_add]
    is missing from the sources; the Scene Clock is an ISO 8601 duration of
    elapsed time, read here as a number of seconds from its week, day,
    hour, minute and second fields. *)
Definition parse_duration (s : string) : option Z :=
  match s with
  | String "P" rest => parse_fields rest false None O 0
  | _ => None
  end.

Definition field (n : Z) (designator : string) : string :=
  if n =? 0 then "" else pretty n +:+ designator.

(** Modelled from the spec: the duration printer behind
    [util.iso8601_add] is missing from the sources; a number of seconds is
    written with day, hour, minute and second fields, empty fields left
    out, and no elapsed time as [P0D]. *)
Definition duration_isoformat (seconds : Z) : string :=
  let days := seconds / 86400 in
  let hours := seconds mod 86400 / 3600 in
  let minutes := seconds mod 3600 / 60 in
  let secs := seconds mod 60 in
  if seconds =? 0 then "P0D"
  else
    "P" +:+ field days "D"
      +:+ (if seconds mod 86400 =? 0 then ""
           else "T" +:+ field hours "H" +:+ field minutes "M" +:+ field secs "S").

(** Modelled from the spec: [util.iso8601_add] is missing from the
    sources; full reconciliation sums durations, so it is the printed sum
    of the two parsed durations, and an operand that is not a duration
    string raises. *)
Definition add (a : value) (b : string) : Result string :=
  match a with
  | VStr a' =>
      match parse_duration a', parse_duration b with
      | Some x, Some y => Ok (duration_isoformat (x + y))
      | _, _ => Raise ValueError
      end
  | _ => Raise TypeError
  end.

End Iso8601.

(** ** Inputs of the scenarios *)

(** The constructors of the message classes with their default sources. *)
Definition new_message (cls : MessageClass) (text : string) (id_ : Z)
    (source : string) : SceneMessage :=
  {| msg_message := text; msg_id := id_; msg_source := source;
     msg_meta := None; msg_flags := 0; msg_class := cls |}.

Definition no_helpers : Helpers :=
  {| conversation_format := "chat"; actor_direction_mode := "direction";
     layered_history_enabled := false; fix_exposition_enabled := false;
     fix_exposition_narrator := false; player_name := None |}.

(** [Scene()] as [__init__] leaves it, with the given history and archive. *)
Definition new_scene (h : list SceneMessage) (a : list Entry) : Scene :=
  {| history := h; archived_history := a; layered_history := [];
     ts := VStr "PT0S"; intro := ""; helpers := no_helpers |}.

Definition director_bob_1 : SceneMessage :=
  new_message (DirectorMessage "actor_instruction")
    "Director instructs Bob: Smile." 1 "Bob".

Definition director_bob_2 : SceneMessage :=
  new_message (DirectorMessage "actor_instruction")
    "Director instructs Bob: Leave the room." 2 "Bob".

Definition alice_hi : SceneMessage :=
  new_message (CharacterMessage None) "Alice: hi" 2 "ai".

Definition bob_hello : SceneMessage :=
  new_message (CharacterMessage None) "Bob: hello" 3 "ai".

Definition three_days_history : list SceneMessage :=
  [ new_message (TimePassageMessage "P1D") "A day passes" 1 "manual";
    alice_hi;
    new_message (TimePassageMessage "P2D") "Two days pass" 3 "manual" ].

Definition player_line : SceneMessage :=
  new_message (CharacterMessage None) "Elmer: I open the door." 1 "player".

Definition mood_note : SceneMessage :=
  new_message ReinforcementMessage "Alice is cheerful." 2 "mood:Alice".


(** Stand-ins for the functions of [talemate.util] and of the editor
    agent: a token is a character, a message counts as its text, every
    archived time reads the same, and texts are left as they are. *)
Definition length_tokens (text : string) : nat := String.length text.

Definition message_length_tokens (m : SceneMessage) : nat :=
  String.length (msg_message m).

Definition plain_diff_to_human (a b : value) : Result string := Ok "Recently".

Definition unchanged (text : string) : string := text.

(** A scene with one line of dialogue and an introduction. *)
Definition tight_scene : Scene :=
  {| history := [alice_hi]; archived_history := []; layered_history := [];
     ts := VStr "PT0S"; intro := "Welcome to the tavern, traveller.";
     helpers := no_helpers |}.

(** The same line of dialogue, rendered as a movie script, and no
    introduction. *)
Definition script_scene : Scene :=
  {| history := [alice_hi]; archived_history := []; layered_history := [];
     ts := VStr "PT0S"; intro := "";
     helpers :=
       {| conversation_format := "movie_script";
          actor_direction_mode := "direction";
          layered_history_enabled := false; fix_exposition_enabled := false;
          fix_exposition_narrator := false; player_name := None |} |}.

(** A scene whose archive claims to summarize five messages while the
    history holds two. *)
Definition overrun_scene : Scene :=
  new_scene [alice_hi; bob_hello]
    [ {[ "text" := VStr "They met."; "ts" := VStr "PT0S"; "end" := VInt 5 ]} ].

Definition elmer : Actor :=
  {| actor_is_player := true;
     character := Some {| name := "Elmer"; is_player := true;
                          memory_dirty := false |} |}.

(** A world in which the player's generation is cancelled and every other
    call returns nothing. *)
Definition cancelling_run (a : Await) (sc : SceneState unit)
    : SceneState unit * Result Reply :=
  match a with
  | Talk _ => (sc, Raise GenerationCancelled)
  | _ => (sc, Ok NoReply)
  end.

Definition waiting_for_elmer : LoopState unit :=
  {| scene := {| world := tt; actors := [elmer]; active := true;
                 auto_progress := true; auto_save := false;
                 next_actor := Some "Elmer"; active_actor := None;
                 most_recent_ai_actor := None; saved := true;
                 cancel_requested := true |};
     skip_to_player := false; signal_game_loop := true |}.

(** The state in which the cancellation of Elmer's generation is raised. *)
Definition elmer_cancelled : LoopState unit :=
  set_scene (set_active_actor elmer (scene waiting_for_elmer))
    (set_signal_game_loop true (set_skip_to_player false waiting_for_elmer)).

(** A director's actor instruction whose text names no character. *)
Definition director_smile : SceneMessage :=
  new_message (DirectorMessage "actor_instruction") "Smile" 8 "Bob".

(** A line of narration that the player entered. *)
Definition narrator_by_player : SceneMessage :=
  new_message NarratorMessage "The door creaks." 4 "player".

(** A character message whose text names no speaker. *)
Definition colonless : SceneMessage :=
  new_message (CharacterMessage None) "shrugs" 5 "ai".

Definition one_day_passes : SceneMessage :=
  new_message (TimePassageMessage "P1D") "A day passes" 7 "manual".

(** A scene with one line of dialogue, and the same scene a day later. *)
Definition first_day : Scene := new_scene [alice_hi] [].

Definition a_day_later : Scene :=
  {| history := [alice_hi; one_day_passes]; archived_history := [];
     layered_history := []; ts := VStr "P1D"; intro := "";
     helpers := no_helpers |}.

Definition guard : Actor :=
  {| actor_is_player := false;
     character := Some {| name := "Guard"; is_player := false;
                          memory_dirty := false |} |}.

(** The loop state while the loop skips to the player. *)
Definition skipping_to_elmer : LoopState unit :=
  set_skip_to_player true waiting_for_elmer.

(** ** Predicates of the statements *)

(** The filter of [collect_messages] as a predicate. *)
Definition wanted (typ_filter source_filter : option string)
    (m : SceneMessage) : Prop :=
  matches_filter typ_filter source_filter m = true.

Global Instance wanted_dec typ_filter source_filter m :
  Decision (wanted typ_filter source_filter m).
Proof. unfold wanted. apply _. Defined.

(** [e'] is [e], or [e] with a new time stamp when [e] has the key [end]:
    what full reconciliation may do to an archive entry. *)
Definition clock_stamped (e e' : Entry) : Prop :=
  e' = e \/ (is_Some (e !! "end") /\ exists v, e' = <["ts" := v]> e).

(** The character messages that are not hidden: those the dialogue loop
    can collect. *)
Definition visible_characters (h : list SceneMessage) : Z :=
  Z.of_nat (length (filter (fun m => is_character m && negb (hidden m) = true) h)).

(** The tokens of all the messages of a history. *)
Definition message_tokens (count_tokens_message : SceneMessage -> nat)
    (h : list SceneMessage) : Z :=
  Z.of_nat (foldr (fun m n => (count_tokens_message m + n)%nat) O h).

(** Rendering a message for the dialogue lane yields no more tokens than
    the message itself counts. *)
Definition renders_within (count_tokens_text : string -> nat)
    (count_tokens_message : SceneMessage -> nat) (s : Scene) : bool :=
  forallb
    (fun m =>
       match as_format m (conversation_format (helpers s))
               (actor_direction_mode (helpers s)) with
       | Ok rendered =>
           (count_tokens_text rendered <=? count_tokens_message m)%nat
       | Raise _ => true
       end)
    (history s).



(** No two messages of the history carry the same id. *)
Definition unique_ids (h : list SceneMessage) : Prop :=
  NoDup (msg_id <$> h).

(** The archive's last [end] is missing, [None], or an index into the
    history: the part of the history that [sync_time] replays starts
    inside the history. *)
Definition archive_end_within (s : Scene) : Prop :=
  match read_summarized_to s with
  | VNone => True
  | VInt n => 0 <= n <= Z.of_nat (length (history s))
  | VStr _ => False
  end.

(** ** Lemmas on the backward scan *)

Lemma rfind_index_Some {A : Type} (p : A -> bool) (l : list A) (n idx : nat) :
  rfind_index p l n = Some idx ->
  exists x, l !! idx = Some x /\ p x = true.
Proof.
  induction n as [|n IH]; simpl; [discriminate|].
  destruct (l !! n) as [x|] eqn:Hx; [|exact IH].
  destruct (p x) eqn:Hp; [|exact IH].
  intros [= <-]. eauto.
Qed.

Lemma rfind_index_None {A : Type} (p : A -> bool) (l : list A) (n : nat) :
  rfind_index p l n = None ->
  forall i x, (i < n)%nat -> l !! i = Some x -> p x = false.
Proof.
  induction n as [|n IH]; simpl; intros Hnone i x Hi Hx; [lia|].
  destruct (l !! n) as [y|] eqn:Hy.
  - destruct (p y) eqn:Hp; [discriminate|].
    destruct (decide (i = n)) as [->|Hne].
    + congruence.
    + apply (IH Hnone i x); [lia|done].
  - destruct (decide (i = n)) as [->|Hne]; [congruence|].
    apply (IH Hnone i x); [lia|done].
Qed.

(** ** The director invariant of [push_history] *)

Lemma director_count_app source (h1 h2 : list SceneMessage) :
  director_count source (h1 ++ h2) =
  (director_count source h1 + director_count source h2)%nat.
Proof. unfold director_count. by rewrite filter_app, length_app. Qed.

Lemma director_count_nil source : director_count source [] = O.
Proof. done. Qed.

Lemma director_count_cons source m (h : list SceneMessage) :
  director_count source (m :: h) =
  ((if same_source_director source m then 1 else 0) + director_count source h)%nat.
Proof.
  unfold director_count. rewrite filter_cons.
  destruct (same_source_director source m) eqn:E.
  - rewrite decide_True by done. done.
  - rewrite decide_False by congruence. done.
Qed.

Lemma director_count_delete source (h : list SceneMessage) idx m :
  h !! idx = Some m ->
  director_count source h =
  ((if same_source_director source m then 1 else 0)
   + director_count source (delete idx h))%nat.
Proof.
  intros Hm.
  rewrite <- (take_drop_middle h idx m Hm) at 1.
  rewrite delete_take_drop.
  rewrite !director_count_app, director_count_cons. lia.
Qed.

Lemma director_count_zero source (h : list SceneMessage) :
  (forall i m, h !! i = Some m -> same_source_director source m = false) ->
  director_count source h = O.
Proof.
  induction h as [|x h IH]; intros Hall; [done|].
  rewrite director_count_cons, (Hall O x eq_refl), IH; [done|].
  intros i m Hm. apply (Hall (S i) m Hm).
Qed.

Lemma same_source_director_other source source' m :
  same_source_director source m = true -> source <> source' ->
  same_source_director source' m = false.
Proof.
  unfold same_source_director. intros H Hne.
  apply andb_true_iff in H as [-> H]. apply String.eqb_eq in H.
  simpl. apply String.eqb_neq. congruence.
Qed.

(** Evicting takes one director message of the source away, if there is
    one, and leaves the other sources alone. *)
Lemma evict_director_count_same source (h : list SceneMessage) :
  director_count source (evict_director source h) =
  (director_count source h - 1)%nat.
Proof.
  unfold evict_director.
  destruct (rfind_index _ h (length h)) as [idx|] eqn:Hfind.
  - apply rfind_index_Some in Hfind as (m & Hm & Hp).
    rewrite (director_count_delete source h idx m Hm), Hp. lia.
  - rewrite director_count_zero; [done|].
    intros i m Hm. apply (rfind_index_None _ _ _ Hfind i m); [|done].
    by apply lookup_lt_Some in Hm.
Qed.

Lemma evict_director_count_other source source' (h : list SceneMessage) :
  source <> source' ->
  director_count source' (evict_director source h) = director_count source' h.
Proof.
  intros Hne. unfold evict_director.
  destruct (rfind_index _ h (length h)) as [idx|] eqn:Hfind; [|done].
  apply rfind_index_Some in Hfind as (m & Hm & Hp).
  rewrite (director_count_delete source' h idx m Hm).
  by rewrite (same_source_director_other source source' m Hp Hne).
Qed.

Section HistoryFacts.

Variable isodate_add : value -> string -> Result string.

(** The history after one [push_history] call with a single message. *)
Lemma push_history_single (m : SceneMessage) (s : Scene) :
  history (fst (push_history isodate_add [m] s)) =
  match msg_class m with
  | DirectorMessage _ => evict_director (msg_source m) (history s) ++ [m]
  | TimePassageMessage t =>
      if is_ok (isodate_add (ts s) t) then history s ++ [m] else history s
  | _ => history s ++ [m]
  end.
Proof.
  unfold push_history. simpl.
  destruct (msg_class m) eqn:Hc; try done.
  unfold advance_time. by destruct (isodate_add (ts s) ts0).
Qed.

(** A call that appends one message keeps the invariant. *)
Lemma push_history_single_invariant (m : SceneMessage) (s : Scene) :
  one_director_per_source (history s) ->
  one_director_per_source (history (fst (push_history isodate_add [m] s))).
Proof.
  intros Hinv source. rewrite push_history_single.
  pose proof (Hinv source) as Hs.
  assert (Hplain : is_director m = false ->
            (director_count source (history s ++ [m]) <= 1)%nat).
  { intros Hd.
    rewrite director_count_app, director_count_cons, director_count_nil.
    unfold same_source_director. rewrite Hd. simpl. lia. }
  destruct (msg_class m) eqn:Hc;
    try (apply Hplain; unfold is_director; by rewrite Hc).
  - rewrite director_count_app, director_count_cons, director_count_nil.
    destruct (decide (msg_source m = source)) as [<-|Hne].
    + rewrite evict_director_count_same.
      destruct (same_source_director _ m); lia.
    + rewrite evict_director_count_other by done.
      assert (same_source_director source m = false) as ->; [|lia].
      unfold same_source_director. apply andb_false_iff. right.
      by apply String.eqb_neq.
  - destruct (is_ok _); [|done].
    apply Hplain. unfold is_director. by rewrite Hc.
Qed.

(** After a director message is appended by a call of its own, it is the
    only director message of its source. *)
Lemma push_history_director_alone (m : SceneMessage) (s : Scene) :
  is_director m = true ->
  one_director_per_source (history s) ->
  director_count (msg_source m)
    (history (fst (push_history isodate_add [m] s))) = 1%nat.
Proof.
  intros Hd Hinv. rewrite push_history_single.
  unfold is_director in Hd. destruct (msg_class m) eqn:Hc; try discriminate.
  rewrite director_count_app, director_count_cons, director_count_nil,
    evict_director_count_same.
  assert (same_source_director (msg_source m) m = true) as ->.
  { unfold same_source_director, is_director. rewrite Hc. simpl.
    apply String.eqb_refl. }
  pose proof (Hinv (msg_source m)). lia.
Qed.

End HistoryFacts.

Section PushSequences.

Variable isodate_add : value -> string -> Result string.

(** Calls that append one message each keep the invariant, from any
    history that has it. *)
Lemma push_all_single_invariant (ms : list SceneMessage) (s : Scene) :
  one_director_per_source (history s) ->
  one_director_per_source
    (history (fst (push_all isodate_add (map (fun m => [m]) ms) s))).
Proof.
  revert s. induction ms as [|m ms IH]; intros s Hinv; [done|].
  simpl.
  pose proof (push_history_single_invariant isodate_add m s Hinv) as Hstep.
  destruct (push_history isodate_add [m] s) as [s' [u|e]]; simpl in *.
  - by apply IH.
  - done.
Qed.

(** Two director messages for Bob, appended by two calls: the second
    evicts the first. *)
Lemma push_two_directors_in_sequence :
  history (fst (push_all isodate_add [[director_bob_1]; [director_bob_2]]
                  (new_scene [] []))) = [director_bob_2].
Proof. reflexivity. Qed.

(** C2: [push_history] evicts one director message of the same source
    per appended director message, but looks for it only in the history
    as it was before the call: a single call that carries two director
    messages for Bob appends both, and the history then holds two director
    messages of the source Bob. *)
Theorem push_history_batch_keeps_two_directors :
  let s' := fst (push_history isodate_add [director_bob_1; director_bob_2]
                   (new_scene [] [])) in
  history s' = [director_bob_1; director_bob_2]
  /\ director_count "Bob" (history s') = 2%nat
  /\ ~ one_director_per_source (history s').
Proof.
  simpl. split; [reflexivity|]. split; [reflexivity|].
  intros H. specialize (H "Bob"). vm_compute in H. lia.
Qed.

End PushSequences.

(** ** Editing a message *)

(** C9: [edit_message] keeps the length and the order of the history and
    every field of every message but the text; the only message whose text
    can change is the first one carrying the id, which gets the new text;
    when no message carries the id the scene stays as it is. The function
    is total: it raises nothing. *)
Theorem edit_message_frame (s : Scene) (message_id : Z) (text : string) :
  let s' := edit_message message_id text s in
  length (history s') = length (history s)
  /\ archived_history s' = archived_history s
  /\ layered_history s' = layered_history s
  /\ ts s' = ts s
  /\ (forall i m, history s !! i = Some m ->
        exists m', history s' !! i = Some m'
          /\ msg_id m' = msg_id m /\ msg_class m' = msg_class m
          /\ msg_source m' = msg_source m /\ msg_flags m' = msg_flags m
          /\ msg_meta m' = msg_meta m
          /\ (m' = m
              \/ (msg_id m = message_id
                  /\ (forall j mj, (j < i)%nat -> history s !! j = Some mj ->
                        msg_id mj <> message_id)
                  /\ msg_message m' = text)))
  /\ (forall i m, history s !! i = Some m -> msg_id m = message_id ->
        (forall j mj, (j < i)%nat -> history s !! j = Some mj ->
           msg_id mj <> message_id) ->
        history s' !! i = Some (set_message text m))
  /\ ((forall m, m ∈ history s -> msg_id m <> message_id) -> s' = s).
Proof.
  unfold edit_message.
  destruct (list_find _ (history s)) as [[i0 m0]|] eqn:Hfind; simpl.
  - apply list_find_Some in Hfind as (Hm0 & Hid0 & Hfirst).
    split; [apply length_alter|]. do 3 (split; [done|]).
    split; [|split].
    + intros i m Hm. destruct (decide (i0 = i)) as [<-|Hne].
      * exists (set_message text m).
        rewrite list_lookup_alter_eq, Hm. simpl.
        repeat (split; [done|]). right.
        assert (m = m0) as -> by congruence.
        split; [done|]. split; [|done].
        intros j mj Hj Hmj. by apply (Hfirst j mj).
      * exists m. rewrite list_lookup_alter_ne by done. auto 10.
    + intros i m Hm Hid Hbefore.
      destruct (decide (i0 = i)) as [<-|Hne].
      * by rewrite list_lookup_alter_eq, Hm.
      * exfalso. destruct (Nat.lt_total i0 i) as [Hlt|[Heq|Hgt]]; [|done|].
        -- by apply (Hbefore i0 m0 Hlt Hm0).
        -- by apply (Hfirst i m Hm Hgt).
    + intros Hnone. exfalso. apply (Hnone m0); [|done].
      apply list_elem_of_lookup. eauto.
  - apply list_find_None in Hfind.
    repeat (split; [done|]). split; [|split].
    + intros i m Hm. exists m. auto 10.
    + intros i m Hm Hid _. exfalso.
      rewrite Forall_forall in Hfind. apply (Hfind m); [|done].
      apply list_elem_of_lookup. eauto.
    + done.
Qed.

(** ** Collecting messages *)

Section Collect.

Variables (h : list SceneMessage) (typ_filter source_filter : option string).
Variables (max_iterations : Z) (max_messages : option Z).

(** The loop at index [i]: it appends to [messages] the wanted messages
    of the indices [k .. i - 1], the most recent first, for some [k]. *)
Lemma collect_loop_spec (i : nat) (iterations collected : Z)
    (messages : list SceneMessage) :
  (i <= length h)%nat ->
  let result := collect_loop h typ_filter source_filter max_iterations
                  max_messages i iterations collected messages in
  exists k : nat,
    (k <= i)%nat
    /\ result = messages ++ rev (filter (wanted typ_filter source_filter) (drop k (take i h)))
    /\ Z.of_nat (i - k) <= Z.max 1 (max_iterations - iterations)
    /\ (forall mm, max_messages = Some mm ->
          collected = Z.of_nat (length messages) ->
          length result = length messages
          \/ Z.of_nat (length result) <= Z.max mm (collected + 1)).
Proof.
  revert iterations collected messages.
  induction i as [|j IH]; intros iterations collected messages Hi; simpl.
  - exists O. rewrite take_0, drop_0. simpl. rewrite app_nil_r.
    split; [lia|]. split; [done|]. split; [lia|]. intros; by left.
  - destruct (h !! j) as [m|] eqn:Hm;
      [|apply lookup_ge_None in Hm; lia].
    assert (Hlast : drop j (take (S j) h) = [m]).
    { rewrite (take_S_r h j m Hm), drop_app_length'; [done|].
      rewrite length_take. lia. }
    assert (Hsplit : forall k, (k <= j)%nat ->
              drop k (take (S j) h) = drop k (take j h) ++ [m]).
    { intros k Hk. rewrite (take_S_r h j m Hm), drop_app_le; [done|].
      rewrite length_take. lia. }
    destruct (matches_filter typ_filter source_filter m) eqn:Hw.
    + assert (Hstop : exists k : nat,
                (k <= S j)%nat
                /\ messages ++ [m]
                   = messages ++ rev (filter (wanted typ_filter source_filter)
                            (drop k (take (S j) h)))
                /\ Z.of_nat (S j - k) <= Z.max 1 (max_iterations - iterations)).
      { exists j. rewrite Hlast, filter_cons_True by done.
        split; [lia|]. split; [done|]. lia. }
      assert (Hlen : length (messages ++ [m]) = S (length messages))
        by (rewrite length_app; simpl; lia).
      destruct (match max_messages with
                | Some mm => mm <=? collected + 1
                | None => false
                end) eqn:Hmax.
      { destruct Hstop as (k & ? & ? & ?). exists k.
        do 3 (split; [done|]).
        intros mm Hmm Hc. right. rewrite Hlen. lia. }
      destruct (max_iterations <=? iterations + 1) eqn:Hit.
      { destruct Hstop as (k & ? & ? & ?). exists k.
        do 3 (split; [done|]).
        intros mm Hmm Hc. right. rewrite Hlen. lia. }
      destruct (IH (iterations + 1) (collected + 1) (messages ++ [m]))
        as (k & Hk & Hres & Hcount & Hbound); [lia|].
      exists k. split; [lia|]. split; [|split].
      * rewrite Hres, (Hsplit k Hk), filter_app, rev_app_distr.
        rewrite filter_cons_True by done. simpl. by rewrite <- app_assoc.
      * apply Z.leb_gt in Hit. lia.
      * intros mm Hmm Hc. rewrite Hmm in Hmax. apply Z.leb_gt in Hmax.
        destruct (Hbound mm Hmm) as [Hb|Hb]; [rewrite Hlen; lia| |].
        -- right. rewrite Hb, Hlen. lia.
        -- right. lia.
    + destruct (max_iterations <=? iterations + 1) eqn:Hit.
      { exists j. rewrite Hlast, filter_cons_False by (unfold wanted; congruence).
        simpl. rewrite app_nil_r.
        split; [lia|]. split; [done|]. split; [lia|]. intros; by left. }
      destruct (IH (iterations + 1) collected messages)
        as (k & Hk & Hres & Hcount & Hbound); [lia|].
      exists k. split; [lia|]. split; [|split].
      * rewrite Hres, (Hsplit k Hk), filter_app, rev_app_distr.
        rewrite filter_cons_False by (unfold wanted; congruence). done.
      * apply Z.leb_gt in Hit. lia.
      * done.
Qed.

End Collect.

(** [collect_messages] looks at the last [examined] messages of the
    history, for some [examined] that is at most [max_iterations] or 1,
    whichever is larger, and returns the messages among them that pass the
    filter, every one of them, the most recent first. *)
Lemma collect_messages_spec (s : Scene)
    (typ_filter source_filter : option string)
    (max_iterations : Z) (max_messages : option Z) :
  let result :=
    collect_messages s typ_filter source_filter max_iterations max_messages in
  exists examined : nat,
    (examined <= length (history s))%nat
    /\ Z.of_nat examined <= Z.max 1 max_iterations
    /\ result =
       rev (filter (wanted typ_filter source_filter)
              (drop (length (history s) - examined) (history s)))
    /\ (forall mm, max_messages = Some mm ->
          Z.of_nat (length result) <= Z.max 1 mm).
Proof.
  unfold collect_messages.
  destruct (collect_loop_spec (history s) typ_filter source_filter
              max_iterations max_messages (length (history s)) 0 0 [])
    as (k & Hk & Hres & Hcount & Hbound); [lia|].
  exists (length (history s) - k)%nat.
  split; [lia|]. split; [lia|]. split.
  - rewrite Hres, firstn_all. simpl.
    replace (length (history s) - (length (history s) - k))%nat with k by lia.
    done.
  - intros mm Hmm. destruct (Hbound mm Hmm eq_refl) as [Hb|Hb].
    + rewrite Hb. simpl. lia.
    + lia.
Qed.

(** C6, as the code has it: with limits of at least one,
    [collect_messages] examines at most [max_iterations] messages from the
    end of the history and returns the messages among the examined ones
    that pass the filter, every one of them, in reverse chronological order
    (the most recent first), and at most [max_messages] of them. *)
Theorem collect_messages_newest_first (s : Scene)
    (typ_filter source_filter : option string)
    (max_iterations : Z) (max_messages : option Z) :
  1 <= max_iterations ->
  (forall mm, max_messages = Some mm -> 1 <= mm) ->
  let result :=
    collect_messages s typ_filter source_filter max_iterations max_messages in
  exists examined : nat,
    (examined <= length (history s))%nat
    /\ Z.of_nat examined <= max_iterations
    /\ result =
       rev (filter (wanted typ_filter source_filter)
              (drop (length (history s) - examined) (history s)))
    /\ (forall mm, max_messages = Some mm -> Z.of_nat (length result) <= mm).
Proof.
  intros Hiter Hmsgs.
  destruct (collect_messages_spec s typ_filter source_filter max_iterations
              max_messages) as (examined & Hlen & Hex & Hres & Hbound).
  exists examined. split; [done|]. split; [lia|]. split; [done|].
  intros mm Hmm. specialize (Hbound mm Hmm). specialize (Hmsgs mm Hmm). lia.
Qed.

Lemma collect_messages_newest_first_witness :
  exists examined : nat,
    (examined <= length (history (new_scene [alice_hi; bob_hello] [])))%nat
    /\ Z.of_nat examined <= 3
    /\ collect_messages (new_scene [alice_hi; bob_hello] []) None None 3 (Some 1)
       = rev (filter (wanted None None)
                (drop (length (history (new_scene [alice_hi; bob_hello] []))
                       - examined)
                   (history (new_scene [alice_hi; bob_hello] []))))
    /\ (forall mm, Some 1 = Some mm ->
          Z.of_nat (length (collect_messages
                              (new_scene [alice_hi; bob_hello] [])
                              None None 3 (Some 1))) <= mm).
Proof.
  apply (collect_messages_newest_first (new_scene [alice_hi; bob_hello] [])
           None None 3 (Some 1)).
  - lia.
  - intros mm [= <-]. lia.
Defined.

(** C6 with the chronological order it is stated with fails: of two
    matching messages the one appended last comes first in the result,
    which therefore is not in the order of the history. *)
Lemma collect_messages_not_chronological :
  let s := new_scene [alice_hi; bob_hello] [] in
  collect_messages s None None 100 None = [bob_hello; alice_hi]
  /\ ~ collect_messages s None None 100 None `sublist_of` history s.
Proof.
  split; [reflexivity|].
  intros H. vm_compute in H.
  apply sublist_cons_l in H as (k1 & k2 & Heq & H).
  apply sublist_cons_l in H as (k3 & k4 & -> & _).
  destruct k1 as [|a [|b k1]]; [discriminate Heq| |].
  - injection Heq as _ Heq. destruct k3; discriminate Heq.
  - injection Heq as _ _ Heq. destruct k1; discriminate Heq.
Qed.

(** ** Rerun on a player's line *)

Lemma pop_reinforcements_trailing (trailing rest popped : list SceneMessage)
    (m : SceneMessage) :
  Forall (fun r => is_reinforcement r = true) trailing ->
  is_reinforcement m = false ->
  pop_reinforcements (trailing ++ m :: rest) popped =
  (m :: rest, popped ++ trailing, Ok m).
Proof.
  revert popped. induction trailing as [|r trailing IH]; intros popped Hall Hm.
  - simpl. rewrite Hm. by rewrite app_nil_r.
  - inversion Hall as [|? ? Hr Hall']; subst. simpl. rewrite Hr.
    rewrite IH by done. by rewrite <- app_assoc.
Qed.

(** What [rerun] does when the most recent message that is not a
    reinforcement message is a line of the player without [from_choice]:
    it asks for nothing, and the reinforcement messages after that line are
    popped and not regenerated. *)
Lemma rerun_player_line (s : Scene) (before trailing : list SceneMessage)
    (m : SceneMessage) (from_choice : option string) :
  history s = before ++ m :: trailing ->
  Forall (fun r => is_reinforcement r = true) trailing ->
  msg_class m = CharacterMessage from_choice ->
  msg_source m = "player" ->
  falsy_opt from_choice = true ->
  rerun s = {| rerun_history := before ++ [m];
               rerun_dispatch := Ok NothingToRerun;
               rerun_reinforcements := [] |}.
Proof.
  intros Hh Hall Hc Hsrc Hfc. unfold rerun. rewrite Hh.
  rewrite rev_app_distr. simpl. rewrite <- app_assoc. simpl.
  assert (Hm : is_reinforcement m = false)
    by (unfold is_reinforcement; by rewrite Hc).
  rewrite pop_reinforcements_trailing; [|by apply Forall_rev|done].
  destruct (rev trailing ++ m :: rev before) eqn:Hrev.
  { by destruct (rev trailing). }
  unfold rerunning_message, message_str, cannot_rerun.
  rewrite Hsrc, Hc, Hfc. simpl.
  by rewrite rev_involutive.
Qed.

(** Without reinforcement messages after the player's line the history
    stays as it is. *)
Lemma rerun_player_line_last (s : Scene) (before : list SceneMessage)
    (m : SceneMessage) (from_choice : option string) :
  history s = before ++ [m] ->
  msg_class m = CharacterMessage from_choice ->
  msg_source m = "player" ->
  falsy_opt from_choice = true ->
  rerun_history (rerun s) = history s
  /\ rerun_dispatch (rerun s) = Ok NothingToRerun.
Proof.
  intros Hh Hc Hsrc Hfc.
  rewrite (rerun_player_line s before [] m from_choice); try done.
Qed.

(** C7: the history [player_line; mood_note] ends with a reinforcement
    message after a line of the player that has no [from_choice]. [rerun]
    pops the reinforcement message before it looks at the player's line, and
    returns without regenerating or restoring it: the history is left one
    message shorter. *)
Theorem rerun_player_line_drops_reinforcement :
  let s := new_scene [player_line; mood_note] [] in
  last_non_reinforcement (history s) = Some player_line
  /\ rerun_dispatch (rerun s) = Ok NothingToRerun
  /\ rerun_reinforcements (rerun s) = []
  /\ rerun_history (rerun s) = [player_line]
  /\ rerun_history (rerun s) <> history s.
Proof.
  simpl. repeat (split; [reflexivity|]). discriminate.
Qed.

(** ** Full time reconciliation *)

Lemma clock_stamped_refl (e : Entry) : clock_stamped e e.
Proof. by left. Qed.

Lemma clock_stamped_end (e e' : Entry) :
  clock_stamped e e' -> e' !! "end" = e !! "end".
Proof.
  intros [->|(_ & v & ->)]; [done|]. by rewrite lookup_insert_ne.
Qed.

Lemma clock_stamped_without_end (e e' : Entry) :
  clock_stamped e e' -> e !! "end" = None -> e' = e.
Proof.
  intros [->|(Hsome & _)] Hnone; [done|].
  rewrite Hnone in Hsome. by destruct Hsome.
Qed.

Lemma contains_end_stamped (e e' : Entry) :
  clock_stamped e e' -> contains e' "end" = contains e "end".
Proof. intros H. unfold contains. by rewrite (clock_stamped_end e e' H). Qed.

(** The starting time is read from entries without [end] only, and those
    are never stamped. *)
Lemma starting_time_loop_stamped (a a' : list Entry) (t : value) :
  Forall2 clock_stamped a a' ->
  starting_time_loop a' t = starting_time_loop a t.
Proof.
  intros Hrel. revert t.
  induction Hrel as [|e e' a a' He Hrel IH]; intros t; [done|].
  simpl. rewrite (contains_end_stamped e e' He).
  destruct (contains e "end") eqn:Hend.
  - by rewrite !andb_false_r.
  - assert (e' = e) as ->.
    { apply clock_stamped_without_end; [done|].
      unfold contains in Hend. apply bool_decide_eq_false in Hend.
      destruct (e !! "end"); [|done]. exfalso. apply Hend. eauto. }
    rewrite !andb_true_r. destruct (contains e "ts"); apply IH.
Qed.

Section TimeFacts.

Variable iso8601_add : value -> string -> Result string.

(** The loop over the archive only stamps entries that have [end]. *)
Lemma apply_time_jumps_stamped (cumulative : list (nat * string))
    (t : value) (a : list Entry) :
  Forall2 clock_stamped a (fst (apply_time_jumps cumulative t a)).
Proof.
  revert t. induction a as [|e a IH]; intros t; simpl; [constructor|].
  destruct (e !! "end") as [end_|] eqn:Hend.
  - destruct (best_ts_loop cumulative end_ None) as [best_ts|x]; simpl.
    + destruct (negb (falsy_opt best_ts)).
      * specialize (IH (VStr (default "" best_ts))).
        destruct (apply_time_jumps cumulative _ a) as [rest' r]; simpl in *.
        constructor; [|done]. right. split; [by rewrite Hend|eauto].
      * specialize (IH t).
        destruct (apply_time_jumps cumulative t a) as [rest' r]; simpl in *.
        constructor; [|done]. right. split; [by rewrite Hend|eauto].
    + constructor; [apply clock_stamped_refl|].
      apply Forall2_same_length_lookup. split; [done|].
      intros i u v Hu Hv. assert (u = v) as -> by congruence.
      apply clock_stamped_refl.
  - specialize (IH t).
    destruct (apply_time_jumps cumulative t a) as [rest' r]; simpl in *.
    constructor; [apply clock_stamped_refl|done].
Qed.

(** Whether the loop over the archive raises depends on the [end] values
    alone. *)
Lemma apply_time_jumps_ok_stamped (cumulative : list (nat * string))
    (a a' : list Entry) :
  Forall2 clock_stamped a a' ->
  forall t t',
    is_ok (snd (apply_time_jumps cumulative t' a'))
    = is_ok (snd (apply_time_jumps cumulative t a)).
Proof.
  induction 1 as [|e e' a a' He Hrel IH]; intros t t'; [done|].
  simpl. rewrite (clock_stamped_end e e' He).
  destruct (e !! "end") as [end_|].
  - destruct (best_ts_loop cumulative end_ None) as [best_ts|x]; [|done].
    destruct (negb (falsy_opt best_ts)).
    + specialize (IH (VStr (default "" best_ts)) (VStr (default "" best_ts))).
      destruct (apply_time_jumps cumulative _ a') as [r1 o1].
      by destruct (apply_time_jumps cumulative _ a) as [r2 o2].
    + specialize (IH t t').
      destruct (apply_time_jumps cumulative t' a') as [r1 o1].
      by destruct (apply_time_jumps cumulative t a) as [r2 o2].
  - specialize (IH t t').
    destruct (apply_time_jumps cumulative t' a') as [r1 o1].
    by destruct (apply_time_jumps cumulative t a) as [r2 o2].
Qed.

(** The clock after [fix_time], read off the parts of [_fix_time]. *)
Lemma fix_time_ts (s : Scene) :
  ts (fix_time iso8601_add s) =
  let starting_time := starting_time_loop (archived_history s) (VStr "PT0S") in
  match cumulate iso8601_add starting_time (time_jumps_from 0 (history s)) with
  | Raise _ => ts s
  | Ok cumulative =>
      match last cumulative with
      | None => starting_time
      | Some (_, ending_time) =>
          if is_ok (snd (apply_time_jumps cumulative starting_time
                           (archived_history s)))
          then VStr ending_time else ts s
      end
  end.
Proof.
  unfold fix_time, _fix_time. simpl.
  destruct (cumulate _ _ _) as [cumulative|x]; [|done].
  destruct (last cumulative) as [[idx ending_time]|]; [|done].
  by destruct (apply_time_jumps _ _ _) as [entries [u|x]].
Qed.

Lemma fix_time_history (s : Scene) :
  history (fix_time iso8601_add s) = history s.
Proof.
  unfold fix_time, _fix_time.
  destruct (cumulate _ _ _) as [cumulative|x]; [|done].
  destruct (last cumulative) as [[idx ending_time]|]; [|done].
  by destruct (apply_time_jumps _ _ _) as [entries [u|x]].
Qed.

Lemma fix_time_archive_stamped (s : Scene) :
  Forall2 clock_stamped (archived_history s)
    (archived_history (fix_time iso8601_add s)).
Proof.
  assert (Hrefl : Forall2 clock_stamped (archived_history s) (archived_history s)).
  { apply Forall2_same_length_lookup. split; [done|].
    intros i x y Hx Hy. assert (x = y) as -> by congruence.
    apply clock_stamped_refl. }
  unfold fix_time, _fix_time.
  destruct (cumulate _ _ _) as [cumulative|x]; [|done].
  destruct (last cumulative) as [[idx ending_time]|]; [|done].
  pose proof (apply_time_jumps_stamped cumulative
                (starting_time_loop (archived_history s) (VStr "PT0S"))
                (archived_history s)) as Hst.
  by destruct (apply_time_jumps _ _ _) as [entries [u|x]].
Qed.


(** C5: a second run of [fix_time] right after a first one leaves the
    clock where the first run left it. *)
Theorem fix_time_clock_idempotent (s : Scene) :
  ts (fix_time iso8601_add (fix_time iso8601_add s))
  = ts (fix_time iso8601_add s).
Proof.
  rewrite (fix_time_ts (fix_time iso8601_add s)).
  rewrite fix_time_history.
  rewrite (starting_time_loop_stamped _ _ _ (fix_time_archive_stamped s)).
  simpl.
  destruct (cumulate _ _ _) as [cumulative|x] eqn:Hcum; [|done].
  destruct (last cumulative) as [[idx ending_time]|] eqn:Hlast.
  - rewrite (apply_time_jumps_ok_stamped cumulative _ _
               (fix_time_archive_stamped s)
               (starting_time_loop (archived_history s) (VStr "PT0S"))).
    destruct (is_ok _) eqn:Hok; [|done].
    rewrite fix_time_ts. simpl. by rewrite Hcum, Hlast, Hok.
  - rewrite fix_time_ts. simpl. by rewrite Hcum, Hlast.
Qed.

(** On the history of the three-days scenario with an empty archive the
    clock ends on the sum of the two time passages, whatever function adds
    durations. *)
Lemma fix_time_sums_time_passages (s : Scene) (one_day three_days : string) :
  history s = three_days_history ->
  archived_history s = [] ->
  iso8601_add (VStr "PT0S") "P1D" = Ok one_day ->
  iso8601_add (VStr one_day) "P2D" = Ok three_days ->
  ts (fix_time iso8601_add s) = VStr three_days.
Proof.
  intros Hh Ha H1 H2. rewrite fix_time_ts, Hh, Ha. simpl.
  rewrite H1. simpl. rewrite H2. reflexivity.
Qed.

End TimeFacts.

(** C3: with the history [TimePassage P1D; Character "Alice: hi";
    TimePassage P2D] and an empty archive, [fix_time] sets the clock to
    [P3D], which is three days: 3 * 86400 seconds. *)
Theorem fix_time_three_days (s : Scene) :
  history s = three_days_history ->
  archived_history s = [] ->
  ts (fix_time Iso8601.add s) = VStr "P3D"
  /\ Iso8601.parse_duration "P3D" = Some (3 * 86400).
Proof.
  intros Hh Ha. split; [|reflexivity].
  by apply (fix_time_sums_time_passages Iso8601.add s "P1D" "P3D").
Qed.

Lemma fix_time_three_days_witness :
  ts (fix_time Iso8601.add (new_scene three_days_history [])) = VStr "P3D"
  /\ Iso8601.parse_duration "P3D" = Some (3 * 86400).
Proof.
  apply (fix_time_three_days (new_scene three_days_history []));
    reflexivity.
Defined.


(** ** Cancellation in the game loop *)

Section GameLoopFacts.

Variable World : Type.
Variable run : Await -> SceneState World -> SceneState World * Result Reply.

(** The [try] around [actor.talk()] lets a cancellation through. *)
Lemma talk_cancelled (a : Actor) (st : LoopState World) (sc : SceneState World) :
  run (Talk a) (scene st) = (sc, Raise GenerationCancelled) ->
  talk run a st = (set_scene sc st, Raise GenerationCancelled).
Proof. intros H. unfold talk, await. by rewrite H. Qed.

(** The handler of the cancellation leaves the scene active or not as it
    found it. *)
Lemma handle_cancelled_active (st : LoopState World) :
  match handle GenerationCancelled st with
  | GoOn st' => active (scene st') = active (scene st)
  | Leave _ _ => False
  end.
Proof. done. Qed.

(** C8: when a round of the game loop raises [GenerationCancelled], as
    it does when the awaited generation of an actor is cancelled, the
    round ends with the loop going on: [next_actor] is [None],
    [skip_to_player] is true, [cancel_requested] is false, the scene is
    as active as it was when the exception was raised, and the loop runs
    its next round from that state. *)
Theorem game_loop_recovers_from_cancellation (st st1 : LoopState World) :
  round_body run st = (st1, Raise GenerationCancelled) ->
  exists st',
    game_round run st = GoOn st'
    /\ next_actor (scene st') = None
    /\ skip_to_player st' = true
    /\ cancel_requested (scene st') = false
    /\ active (scene st') = active (scene st1)
    /\ (active (scene st) = true ->
        forall rounds,
          game_loop run (S rounds) st = game_loop run rounds st').
Proof.
  intros Hbody. eexists. split.
  { unfold game_round. rewrite Hbody. simpl. reflexivity. }
  simpl. do 4 (split; [reflexivity|]).
  intros Hactive rounds. simpl. rewrite Hactive.
  unfold game_round. by rewrite Hbody.
Qed.

End GameLoopFacts.

(** The player's generation is cancelled while the loop awaits it. *)
Lemma game_loop_recovers_from_cancellation_witness :
  round_body cancelling_run waiting_for_elmer
  = (elmer_cancelled, Raise GenerationCancelled)
  /\ exists st',
      game_round cancelling_run waiting_for_elmer = GoOn st'
      /\ next_actor (scene st') = None
      /\ skip_to_player st' = true
      /\ cancel_requested (scene st') = false
      /\ active (scene st') = active (scene elmer_cancelled)
      /\ (active (scene waiting_for_elmer) = true ->
          forall rounds,
            game_loop cancelling_run (S rounds) waiting_for_elmer
            = game_loop cancelling_run rounds st').
Proof.
  split; [reflexivity|].
  apply (game_loop_recovers_from_cancellation unit cancelling_run
           waiting_for_elmer elmer_cancelled).
  reflexivity.
Defined.

(** ** The dialogue lane and the budget *)

Section ContextFacts.

Variable count_tokens_text : string -> nat.
Variable count_tokens_message : SceneMessage -> nat.
Variable iso8601_diff_to_human : value -> value -> Result string.
Variable condensed : string -> string.
Variable fix_exposition_in_text : string -> string.

Lemma count_tokens_nil : count_tokens count_tokens_text [] = 0.
Proof. done. Qed.

Lemma count_tokens_cons (p : string) (parts : list string) :
  count_tokens count_tokens_text (p :: parts)
  = Z.of_nat (count_tokens_text p) + count_tokens count_tokens_text parts.
Proof. unfold count_tokens. simpl. lia. Qed.

Lemma count_tokens_app (parts1 parts2 : list string) :
  count_tokens count_tokens_text (parts1 ++ parts2)
  = count_tokens count_tokens_text parts1 + count_tokens count_tokens_text parts2.
Proof.
  induction parts1 as [|p parts1 IH]; [by rewrite count_tokens_nil|].
  simpl. rewrite !count_tokens_cons, IH. lia.
Qed.


(** With the cutoff at 0 the test on the cutoff never holds. *)
Lemma dialogue_loop_zero_cutoff (s : Scene) (o : ContextOptions)
    (budget_dialogue : Z) (i : nat) (parts_dialogue : list string)
    (collected : Z) :
  dialogue_loop count_tokens_text count_tokens_message s o budget_dialogue
    (VInt 0) i parts_dialogue collected
  = dialogue_loop_budget_only count_tokens_text count_tokens_message s o
      budget_dialogue i parts_dialogue collected.
Proof.
  revert parts_dialogue collected.
  induction i as [|k IH]; intros parts_dialogue collected; simpl; [done|].
  destruct (history s !! k) as [m|]; [|done].
  assert ((Z.of_nat k <? 0) = false) as -> by (apply Z.ltb_ge; lia).
  simpl. destruct (hidden m || skipped_in_dialogue o m); [apply IH|].
  destruct (_ <? _); [done|].
  destruct (as_format m _ _) as [rendered|x]; simpl; [apply IH|done].
Qed.

(** C10: when the last archive entry's [end] is an index at or past the
    end of the history, [summarized_to] is reset to 0, and the dialogue
    lane is what the loop without the test on the cutoff collects: whatever
    [assured_dialogue_num] is, the loop is stopped by the dialogue budget
    alone (or runs through the whole history). *)
Theorem dialogue_lane_cutoff_reset (s : Scene) (e : Entry) (n : Z)
    (o : ContextOptions) (budget_dialogue : Z) :
  last (archived_history s) = Some e ->
  e !! "end" = Some (VInt n) ->
  Z.of_nat (length (history s)) <= n ->
  summarized_to s = Ok (VInt 0)
  /\ dialogue_lane count_tokens_text count_tokens_message s o budget_dialogue
     = dialogue_loop_budget_only count_tokens_text count_tokens_message s o
         budget_dialogue (length (history s)) [] 0.
Proof.
  intros Hlast Hend Hlen.
  assert (Hreset : summarized_to s = Ok (VInt 0)).
  { unfold summarized_to, read_summarized_to. rewrite Hlast, Hend. simpl.
    destruct (n =? 0) eqn:Hn; simpl.
    - apply Z.eqb_eq in Hn. by subst.
    - assert ((Z.of_nat (length (history s)) <=? n) = true) as ->
        by (apply Z.leb_le; lia).
      done. }
  split; [done|].
  unfold dialogue_lane. rewrite Hreset. simpl.
  apply dialogue_loop_zero_cutoff.
Qed.

(** What is left after chopping fits the context budget. *)
Lemma trim_context_bound (budget_context : Z) (parts parts' : list string) :
  trim_context count_tokens_text budget_context parts = Ok parts' ->
  count_tokens count_tokens_text parts' <= budget_context.
Proof.
  induction parts as [|p parts IH]; simpl.
  - destruct (budget_context <? count_tokens count_tokens_text []) eqn:Hb;
      [discriminate|].
    intros [= <-]. by apply Z.ltb_ge in Hb.
  - destruct (budget_context <? count_tokens count_tokens_text (p :: parts))
      eqn:Hb; [exact IH|].
    intros [= <-]. by apply Z.ltb_ge in Hb.
Qed.

Lemma context_lane_bound (s : Scene) (o : ContextOptions) (budget_context : Z)
    (parts : list string) :
  context_lane count_tokens_text iso8601_diff_to_human condensed s o
    budget_context = Ok parts ->
  count_tokens count_tokens_text parts <= budget_context.
Proof.
  unfold context_lane.
  match goal with |- bind ?r _ = _ -> _ => destruct r as [found|x] end;
    simpl; [apply trim_context_bound|discriminate].
Qed.

Lemma message_tokens_take_S (h : list SceneMessage) (k : nat) (m : SceneMessage) :
  h !! k = Some m ->
  message_tokens count_tokens_message (take (S k) h)
  = message_tokens count_tokens_message (take k h)
    + Z.of_nat (count_tokens_message m).
Proof.
  intros Hm. rewrite (take_S_r h k m Hm). unfold message_tokens.
  rewrite foldr_app. simpl.
  generalize (take k h). intros l. induction l as [|x l IH]; simpl; lia.
Qed.

Lemma visible_characters_take_S (h : list SceneMessage) (k : nat)
    (m : SceneMessage) :
  h !! k = Some m ->
  visible_characters (take (S k) h)
  = visible_characters (take k h)
    + (if is_character m && negb (hidden m) then 1 else 0).
Proof.
  intros Hm. rewrite (take_S_r h k m Hm). unfold visible_characters.
  rewrite filter_app, length_app, filter_cons, filter_nil.
  destruct (is_character m && negb (hidden m)) eqn:E.
  - rewrite decide_True by done. simpl. lia.
  - rewrite decide_False by congruence. simpl. lia.
Qed.

Lemma message_tokens_nonneg (h : list SceneMessage) :
  0 <= message_tokens count_tokens_message h.
Proof. unfold message_tokens. lia. Qed.

Lemma renders_within_lookup (s : Scene) (k : nat) (m : SceneMessage)
    (rendered : string) :
  renders_within count_tokens_text count_tokens_message s = true ->
  history s !! k = Some m ->
  as_format m (conversation_format (helpers s))
    (actor_direction_mode (helpers s)) = Ok rendered ->
  (count_tokens_text rendered <= count_tokens_message m)%nat.
Proof.
  unfold renders_within. intros Hall Hm Hr.
  rewrite forallb_forall in Hall.
  assert (Hin : In m (history s)).
  { apply list_elem_of_In, list_elem_of_lookup. eauto. }
  specialize (Hall m Hin). rewrite Hr in Hall.
  by apply Nat.leb_le in Hall.
Qed.

(** A skipped message is no character message. *)
Lemma skipped_not_character (o : ContextOptions) (m : SceneMessage) :
  skipped_in_dialogue o m = true -> is_character m = false.
Proof.
  unfold skipped_in_dialogue, is_character.
  by destruct (msg_class m).
Qed.

Section Loop.

Variables (s : Scene) (o : ContextOptions) (budget_dialogue : Z) (cutoff : value).
Hypothesis Hrenders :
  renders_within count_tokens_text count_tokens_message s = true.

(** The budget test keeps the dialogue lane within the dialogue budget. *)
Lemma dialogue_loop_bound (i : nat) (parts : list string) (collected : Z)
    (parts' : list string) (collected' : Z) :
  count_tokens count_tokens_text parts <= budget_dialogue ->
  dialogue_loop count_tokens_text count_tokens_message s o budget_dialogue
    cutoff i parts collected = Ok (parts', collected') ->
  count_tokens count_tokens_text parts' <= budget_dialogue.
Proof.
  revert parts collected.
  induction i as [|k IH]; intros parts collected Hfits H; simpl in H.
  - by injection H as <- <-.
  - destruct (history s !! k) as [m|] eqn:Hm; [|by injection H as <- <-].
    destruct (index_below k cutoff) as [below|x]; [|discriminate].
    simpl in H.
    destruct (below && (assured_dialogue_num o <=? collected));
      [by injection H as <- <-|].
    destruct (hidden m || skipped_in_dialogue o m); [by eapply IH|].
    destruct (budget_dialogue <? _) eqn:Hb; [by injection H as <- <-|].
    destruct (as_format m _ _) as [rendered|x] eqn:Hr; [|discriminate].
    simpl in H. eapply IH; [|exact H].
    rewrite count_tokens_cons. apply Z.ltb_ge in Hb.
    pose proof (renders_within_lookup s k m rendered Hrenders Hm Hr). lia.
Qed.

(** When all the messages still to be looked at fit the budget next to
    what is collected already, the loop is never stopped by the budget,
    and it ends with [assured_dialogue_num] character messages or with all
    the visible ones. *)
Lemma dialogue_loop_floor (i : nat) (parts : list string) (collected : Z)
    (parts' : list string) (collected' : Z) :
  (i <= length (history s))%nat ->
  count_tokens count_tokens_text parts
  + message_tokens count_tokens_message (take i (history s)) <= budget_dialogue ->
  dialogue_loop count_tokens_text count_tokens_message s o budget_dialogue
    cutoff i parts collected = Ok (parts', collected') ->
  Z.min (assured_dialogue_num o)
    (collected + visible_characters (take i (history s))) <= collected'.
Proof.
  revert parts collected.
  induction i as [|k IH]; intros parts collected Hi Hfits H; simpl in H.
  - injection H as <- <-. unfold visible_characters. simpl. lia.
  - destruct (history s !! k) as [m|] eqn:Hm;
      [|apply lookup_ge_None in Hm; lia].
    assert (Hk : (k <= length (history s))%nat) by lia.
    rewrite (message_tokens_take_S _ k m Hm) in Hfits.
    rewrite (visible_characters_take_S _ k m Hm).
    pose proof (message_tokens_nonneg (take k (history s))) as Hnn.
    destruct (index_below k cutoff) as [below|x]; [|discriminate].
    simpl in H.
    destruct (below && (assured_dialogue_num o <=? collected)) eqn:Hstop.
    { injection H as <- <-. apply andb_true_iff in Hstop as [_ Hc].
      apply Z.leb_le in Hc. lia. }
    destruct (hidden m) eqn:Hh; simpl in H.
    { rewrite andb_false_r.
      assert (Hle := IH parts collected Hk ltac:(lia) H). lia. }
    destruct (skipped_in_dialogue o m) eqn:Hs.
    { rewrite (skipped_not_character o m Hs). simpl.
      assert (Hle := IH parts collected Hk ltac:(lia) H). lia. }
    destruct (budget_dialogue <? _) eqn:Hb; [apply Z.ltb_lt in Hb; lia|].
    destruct (as_format m _ _) as [rendered|x] eqn:Hr; [|discriminate].
    simpl in H. rewrite andb_true_r.
    pose proof (renders_within_lookup s k m rendered Hrenders Hm Hr) as Hrw.
    assert (Hle := IH (rendered :: parts) _ Hk
                     ltac:(rewrite count_tokens_cons; lia) H).
    destruct (is_character m); lia.
Qed.

End Loop.

(** ** The budget of the assembled context *)

Lemma half_budget_bounds (budget : Z) :
  0 <= budget -> 0 <= half_budget budget /\ 2 * half_budget budget <= budget.
Proof.
  intros Hb. unfold half_budget.
  pose proof (Z.quot_rem' budget 2) as Hqr.
  pose proof (Z.rem_bound_pos budget 2 Hb ltac:(lia)) as Hr.
  pose proof (Z.quot_pos budget 2 Hb ltac:(lia)). lia.
Qed.

(** C1, as the code has it: for a budget between 0 and 2^53, when
    rendering a message yields no more tokens than the message counts and
    [context_history] returns, the context lane and the dialogue lane hold at
    most [int(0.5 * budget)] tokens each, so together at most [budget]; the
    returned list is the two lanes, preceded by the scene introduction when
    they hold fewer than 1024 tokens and the introduction is not empty, and
    the introduction is the only part that can take the list over the
    budget. The floor on character messages does not override the budget:
    [dialogue_messages_collected] is at least the smaller of
    [assured_dialogue_num] and the number of visible character messages when
    all the messages of the history fit the dialogue budget. *)
Theorem context_history_within_budget (s : Scene) (budget : Z)
    (o : ContextOptions) (parts : list string) :
  0 <= budget <= 2 ^ 53 ->
  renders_within count_tokens_text count_tokens_message s = true ->
  context_history count_tokens_text count_tokens_message iso8601_diff_to_human
    condensed fix_exposition_in_text s budget o = Ok parts ->
  exists (parts_context parts_dialogue : list string) (collected : Z),
    context_lane count_tokens_text iso8601_diff_to_human condensed s o
      (half_budget budget) = Ok parts_context
    /\ dialogue_lane count_tokens_text count_tokens_message s o
         (half_budget budget) = Ok (parts_dialogue, collected)
    /\ count_tokens count_tokens_text parts_context <= half_budget budget
    /\ count_tokens count_tokens_text parts_dialogue <= half_budget budget
    /\ count_tokens count_tokens_text (parts_context ++ parts_dialogue) <= budget
    /\ (count_tokens count_tokens_text (parts_context ++ parts_dialogue)
          < 1024
        /\ get_intro fix_exposition_in_text s <> "" ->
        parts = get_intro fix_exposition_in_text s
                  :: parts_context ++ parts_dialogue)
    /\ (1024 <= count_tokens count_tokens_text
                  (parts_context ++ parts_dialogue)
        \/ get_intro fix_exposition_in_text s = "" ->
        parts = parts_context ++ parts_dialogue)
    /\ (message_tokens count_tokens_message (history s) <= half_budget budget ->
        Z.min (assured_dialogue_num o) (visible_characters (history s))
        <= collected).
Proof.
  intros [Hb _] Hrenders H.
  destruct (half_budget_bounds budget Hb) as [Hhalf0 Hhalf].
  unfold context_history in H.
  destruct (context_lane _ _ _ s o _) as [parts_context|x] eqn:Hctx;
    [|discriminate].
  simpl in H.
  destruct (dialogue_lane _ _ s o _) as [[parts_dialogue collected]|x] eqn:Hdlg;
    [|discriminate].
  simpl in H.
  exists parts_context, parts_dialogue, collected.
  pose proof (context_lane_bound _ _ _ _ Hctx) as Hc.
  unfold dialogue_lane in Hdlg.
  destruct (summarized_to s) as [cutoff|x]; [|discriminate]. simpl in Hdlg.
  pose proof (dialogue_loop_bound s o (half_budget budget) cutoff Hrenders
                _ _ _ _ _ ltac:(rewrite count_tokens_nil; lia) Hdlg) as Hd.
  do 4 (split; [done|]).
  split; [rewrite count_tokens_app; lia|].
  split.
  { intros [Hsmall Hintro]. apply Z.ltb_lt in Hsmall.
    apply String.eqb_neq in Hintro. rewrite Hsmall, Hintro in H.
    by injection H as <-. }
  split.
  { intros [Hlarge|Hintro].
    - apply Z.ltb_ge in Hlarge. rewrite Hlarge in H. by injection H as <-.
    - apply String.eqb_eq in Hintro. rewrite Hintro in H.
      destruct (_ <? 1024); by injection H as <-. }
  { intros Hfit.
    pose proof (dialogue_loop_floor s o (half_budget budget) cutoff Hrenders
                  (length (history s)) [] 0 parts_dialogue collected
                  (le_n _)) as Hfloor.
    rewrite firstn_all, count_tokens_nil in Hfloor.
    specialize (Hfloor ltac:(lia) Hdlg). lia. }
Qed.

(** ** When the assembler returns *)






End ContextFacts.

Lemma dialogue_lane_cutoff_reset_witness :
  summarized_to overrun_scene = Ok (VInt 0)
  /\ dialogue_lane length_tokens message_length_tokens overrun_scene
       default_options 4096
     = dialogue_loop_budget_only length_tokens message_length_tokens
         overrun_scene default_options 4096 (length (history overrun_scene)) [] 0.
Proof.
  apply (dialogue_lane_cutoff_reset length_tokens message_length_tokens
           overrun_scene
           {[ "text" := VStr "They met."; "ts" := VStr "PT0S"; "end" := VInt 5 ]}
           5 default_options 4096).
  - reflexivity.
  - reflexivity.
  - simpl. lia.
Defined.

Lemma context_history_within_budget_witness :
  exists (parts_context parts_dialogue : list string) (collected : Z),
    context_lane length_tokens plain_diff_to_human unchanged tight_scene
      default_options (half_budget 8192) = Ok parts_context
    /\ dialogue_lane length_tokens message_length_tokens tight_scene
         default_options (half_budget 8192) = Ok (parts_dialogue, collected)
    /\ count_tokens length_tokens parts_context <= half_budget 8192
    /\ count_tokens length_tokens parts_dialogue <= half_budget 8192
    /\ count_tokens length_tokens (parts_context ++ parts_dialogue) <= 8192
    /\ (count_tokens length_tokens (parts_context ++ parts_dialogue) < 1024
        /\ get_intro unchanged tight_scene <> "" ->
        ["Welcome to the tavern, traveller."; "Alice: hi"]
        = get_intro unchanged tight_scene
            :: parts_context ++ parts_dialogue)
    /\ (1024 <= count_tokens length_tokens (parts_context ++ parts_dialogue)
        \/ get_intro unchanged tight_scene = "" ->
        ["Welcome to the tavern, traveller."; "Alice: hi"]
        = parts_context ++ parts_dialogue)
    /\ (message_tokens message_length_tokens (history tight_scene)
        <= half_budget 8192 ->
        Z.min (assured_dialogue_num default_options)
          (visible_characters (history tight_scene))
        <= collected).
Proof.
  apply (context_history_within_budget length_tokens message_length_tokens
           plain_diff_to_human unchanged unchanged tight_scene 8192
           default_options ["Welcome to the tavern, traveller."; "Alice: hi"]).
  - lia.
  - reflexivity.
  - reflexivity.
Defined.

(** C1 with the floor overriding the budget, and the budget bounding the
    whole list, fails. With a budget of 2 tokens the line of dialogue does
    not fit the dialogue budget of 1, so no character message is collected
    although one is available and the floor is 5; and the scene
    introduction, which is prepended because the lanes hold fewer than 1024
    tokens, alone takes the returned list to 33 tokens. *)
Lemma context_history_over_budget :
  context_history length_tokens message_length_tokens plain_diff_to_human
    unchanged unchanged tight_scene 2 default_options
  = Ok ["Welcome to the tavern, traveller."]
  /\ count_tokens length_tokens ["Welcome to the tavern, traveller."] = 33
  /\ ~ count_tokens length_tokens ["Welcome to the tavern, traveller."] <= 2
  /\ dialogue_lane length_tokens message_length_tokens tight_scene
       default_options (half_budget 2) = Ok ([], 0)
  /\ visible_characters (history tight_scene) = 1
  /\ ~ Z.min (assured_dialogue_num default_options)
         (visible_characters (history tight_scene)) <= 0.
Proof.
  split; [reflexivity|]. split; [reflexivity|].
  split; [intros H; vm_compute in H; by apply H|].
  split; [reflexivity|]. split; [reflexivity|].
  intros H. vm_compute in H. by apply H.
Qed.

(** The budget test of the dialogue loop counts the message, and the lane
    holds its rendering: as a movie script the line of 9 tokens is rendered
    in 22, which a budget of 20 lets in. *)
Lemma context_history_rendering_over_budget :
  context_history length_tokens message_length_tokens plain_diff_to_human
    unchanged unchanged script_scene 20 default_options
  = Ok [NL +:+ "ALICE" +:+ NL +:+ "hi" +:+ NL +:+ "END-OF-LINE" +:+ NL]
  /\ count_tokens length_tokens
       [NL +:+ "ALICE" +:+ NL +:+ "hi" +:+ NL +:+ "END-OF-LINE" +:+ NL] = 22
  /\ renders_within length_tokens message_length_tokens script_scene = false.
Proof. repeat split; reflexivity. Qed.

(** ** Hiding a message *)

Lemma testbit_one (n : Z) : 0 < n -> Z.testbit 1 n = false.
Proof.
  intros Hn. change 1 with (2 ^ 0). apply Z.pow2_bits_false. lia.
Qed.

Lemma land_one_bit (f : Z) : Z.land f 1 = if Z.testbit f 0 then 1 else 0.
Proof.
  apply Z.bits_inj'. intros n Hn. rewrite Z.land_spec.
  destruct (decide (n = 0)) as [->|Hne].
  - destruct (Z.testbit f 0); reflexivity.
  - rewrite testbit_one by lia. rewrite andb_false_r.
    destruct (Z.testbit f 0); [by rewrite testbit_one by lia|].
    by rewrite Z.bits_0.
Qed.

Lemma hidden_bit (m : SceneMessage) : hidden m = Z.testbit (msg_flags m) 0.
Proof.
  unfold hidden, HIDDEN. rewrite land_one_bit.
  by destruct (Z.testbit (msg_flags m) 0).
Qed.

Lemma unhide_flags (m : SceneMessage) : msg_flags (unhide m) = NONE.
Proof.
  unfold unhide, set_flags. cbn [msg_flags].
  change (flags_invert HIDDEN) with 0. apply Z.land_0_r.
Qed.

(** X1: [hide] sets the hidden bit and touches no other bit of the flags;
    [unhide] clears the hidden bit and, [~Flags.HIDDEN] being
    [Flags.NONE], every other bit with it; neither touches another field.
    So [unhide] undoes [hide] exactly on a message without flags, and
    [hide] undoes [unhide] exactly on a message whose flags are
    [HIDDEN]. *)
Theorem hide_unhide_flags (m : SceneMessage) :
  hidden (hide m) = true
  /\ hidden (unhide m) = false
  /\ (forall n, 0 < n ->
        Z.testbit (msg_flags (hide m)) n = Z.testbit (msg_flags m) n)
  /\ msg_flags (unhide m) = NONE
  /\ set_flags (msg_flags m) (hide m) = m
  /\ set_flags (msg_flags m) (unhide m) = m
  /\ (unhide (hide m) = m <-> msg_flags m = NONE)
  /\ (hide (unhide m) = m <-> msg_flags m = HIDDEN).
Proof.
  split.
  { rewrite hidden_bit. unfold hide, set_flags, HIDDEN. cbn [msg_flags].
    by rewrite Z.lor_spec, orb_true_r. }
  split; [by rewrite hidden_bit, unhide_flags|].
  split.
  { intros n Hn. unfold hide, set_flags, HIDDEN. cbn [msg_flags].
    by rewrite Z.lor_spec, testbit_one, orb_false_r. }
  split; [apply unhide_flags|].
  split; [by destruct m|]. split; [by destruct m|].
  split.
  - pose proof (unhide_flags (hide m)) as Hflags. split.
    + intros Heq. by rewrite Heq in Hflags.
    + intros Hnone. destruct m as [text i src mt f cls]. simpl in Hnone.
      subst f. reflexivity.
  - assert (Hflags : msg_flags (hide (unhide m)) = HIDDEN).
    { unfold hide at 1. unfold set_flags. cbn [msg_flags].
      by rewrite unhide_flags. }
    split.
    + intros Heq. by rewrite Heq in Hflags.
    + intros Hh. destruct m as [text i src mt f cls]. simpl in Hh.
      subst f. reflexivity.
Qed.

(** ** The speaker of a character message *)

Lemma split_once_prefix (sep : ascii) (before after : string) :
  Str.contains_char sep before = false ->
  Str.split_once sep (before +:+ String sep after) = (before, Some after).
Proof.
  unfold Str.contains_char.
  induction before as [|c before IH]; simpl.
  - intros _. by rewrite Ascii.eqb_refl.
  - destruct (Ascii.eqb c sep); [discriminate|].
    destruct (Str.split_once sep before) as [a [b|]] eqn:Hs; [discriminate|].
    intros _. by rewrite IH.
Qed.

Lemma split_once_none (sep : ascii) (text : string) :
  Str.contains_char sep text = false ->
  Str.split_once sep text = (text, None).
Proof.
  unfold Str.contains_char.
  induction text as [|c text IH]; simpl; [done|].
  destruct (Ascii.eqb c sep); [discriminate|].
  destruct (Str.split_once sep text) as [a [b|]] eqn:Hs; [discriminate|].
  intros _. specialize (IH eq_refl). by injection IH as ->.
Qed.

(** X2: a character message whose text is [speaker:line], with no colon
    in [speaker], has [speaker] as its character name and secondary source,
    renders unchanged in any format but the movie script, and renders as
    a movie script with the speaker in capitals over the stripped line. *)
Theorem character_message_speaker (m : SceneMessage)
    (from_choice : option string) (speaker line format mode : string) :
  msg_class m = CharacterMessage from_choice ->
  msg_message m = speaker +:+ String ":" line ->
  Str.contains_char ":" speaker = false ->
  Character.character_name m = speaker
  /\ secondary_source m = speaker
  /\ as_format m "movie_script" mode
     = Ok (NL +:+ Str.upper speaker +:+ NL +:+ Str.strip line +:+ NL
             +:+ "END-OF-LINE" +:+ NL)
  /\ (format <> "movie_script" -> as_format m format mode = Ok (msg_message m)).
Proof.
  intros Hc Hm Hs.
  assert (Hname : Character.character_name m = speaker).
  { unfold Character.character_name, Str.before_colon.
    by rewrite Hm, split_once_prefix. }
  split; [done|]. split; [unfold secondary_source; by rewrite Hc|].
  unfold as_format. rewrite Hc. split.
  - simpl. unfold Character.as_movie_script, Str.after_colon.
    rewrite Hname, Hm, split_once_prefix by done. reflexivity.
  - intros Hf. apply String.eqb_neq in Hf. by rewrite Hf.
Qed.

(** X3: a character message without a colon has its whole text as its
    character name and cannot be rendered as a movie script: [as_format]
    raises [IndexError]. *)
Theorem character_message_without_colon (m : SceneMessage)
    (from_choice : option string) (mode : string) :
  msg_class m = CharacterMessage from_choice ->
  Str.contains_char ":" (msg_message m) = false ->
  as_format m "movie_script" mode = Raise IndexError
  /\ Character.character_name m = msg_message m.
Proof.
  intros Hc Hs. unfold as_format. rewrite Hc. simpl.
  unfold Character.as_movie_script, Character.character_name,
    Str.after_colon, Str.before_colon.
  by rewrite split_once_none.
Qed.

(** ** More on rerun *)

Lemma pop_reinforcements_all (rh popped : list SceneMessage) :
  Forall (fun r => is_reinforcement r = true) rh ->
  pop_reinforcements rh popped = ([], popped ++ rh, Raise IndexError).
Proof.
  revert popped. induction rh as [|r rh IH]; intros popped Hall; simpl.
  - by rewrite app_nil_r.
  - inversion Hall as [|? ? Hr Hall']; subst. rewrite Hr.
    rewrite IH by done. by rewrite <- app_assoc.
Qed.

(** X4: on a history that holds reinforcement messages only, [rerun] pops
    them all and then fails on reading the last message of the emptied
    history: it raises [IndexError], regenerates nothing and leaves the
    history empty. *)
Theorem rerun_reinforcements_only (s : Scene) :
  history s <> [] ->
  Forall (fun r => is_reinforcement r = true) (history s) ->
  rerun s = {| rerun_history := [];
               rerun_dispatch := Raise IndexError;
               rerun_reinforcements := [] |}.
Proof.
  intros Hne Hall. unfold rerun.
  destruct (rev (history s)) as [|m rh] eqn:Hrev.
  { exfalso. apply Hne. by rewrite <- (rev_involutive (history s)), Hrev. }
  rewrite pop_reinforcements_all; [done|].
  rewrite <- Hrev. by apply Forall_rev.
Qed.

(** X5: when the most recent message that is not a reinforcement message
    is a message of an agent (its source is not the player) of a class that
    can be regenerated, and [str(message)] returns for the log line, [rerun]
    pops that message and the reinforcement messages after it, nothing
    else; it asks for the regeneration of the message, and then of the
    reinforcement messages, the most recent first. When [str(message)]
    raises, as it does for a director's actor instruction without a colon,
    [rerun] raises that exception after the reinforcement messages were
    popped, and regenerates nothing. *)
Theorem rerun_agent_message (s : Scene) (before trailing : list SceneMessage)
    (m : SceneMessage) :
  history s = before ++ m :: trailing ->
  Forall (fun r => is_reinforcement r = true) trailing ->
  msg_source m <> "player" ->
  is_character m || is_narrator m || is_director m
    || is_context_investigation m = true ->
  match message_str m with
  | Ok _ =>
      rerun_history (rerun s) = before
      /\ rerun_reinforcements (rerun s) = rev trailing
      /\ rerun_dispatch (rerun s)
         = Ok (match msg_class m with
               | CharacterMessage _ => RerunCharacterMessage m
               | NarratorMessage => RerunNarratorMessage m
               | DirectorMessage _ => RerunDirectorMessage m
               | _ => RerunContextInvestigationMessage m
               end)
  | Raise e =>
      rerun s = {| rerun_history := before ++ [m];
                   rerun_dispatch := Raise e;
                   rerun_reinforcements := [] |}
  end.
Proof.
  intros Hh Hall Hsrc Hcls. unfold rerun. rewrite Hh.
  rewrite rev_app_distr. simpl. rewrite <- app_assoc. simpl.
  assert (Hm : is_reinforcement m = false).
  { unfold is_reinforcement, is_character, is_narrator, is_director,
      is_context_investigation in *. by destruct (msg_class m). }
  rewrite pop_reinforcements_trailing; [|by apply Forall_rev|done].
  destruct (rev trailing ++ m :: rev before) eqn:Hrev.
  { by destruct (rev trailing). }
  unfold rerunning_message.
  destruct (message_str m) as [text|e]; simpl; rewrite rev_involutive;
    [|done].
  unfold cannot_rerun.
  apply String.eqb_neq in Hsrc. rewrite Hsrc. simpl.
  unfold is_character, is_narrator, is_director, is_context_investigation in Hcls.
  destruct (msg_class m); try discriminate; done.
Qed.

(** X6: a message that is not a character message and has the player as
    its source, such as the narration a player enters when acting as the
    narrator, makes [rerun] raise: [AttributeError] when [str(message)]
    returns for the log line, since the test on [from_choice] reads an
    attribute that only character messages have, and the exception of
    [str(message)] otherwise. The reinforcement messages after it are
    popped before that, and the message itself stays. *)
Theorem rerun_player_narration (s : Scene) (before trailing : list SceneMessage)
    (m : SceneMessage) :
  history s = before ++ m :: trailing ->
  Forall (fun r => is_reinforcement r = true) trailing ->
  msg_source m = "player" ->
  is_character m = false ->
  is_reinforcement m = false ->
  rerun s = {| rerun_history := before ++ [m];
               rerun_dispatch :=
                 match message_str m with
                 | Ok _ => Raise AttributeError
                 | Raise e => Raise e
                 end;
               rerun_reinforcements := [] |}.
Proof.
  intros Hh Hall Hsrc Hchar Hm. unfold rerun. rewrite Hh.
  rewrite rev_app_distr. simpl. rewrite <- app_assoc. simpl.
  rewrite pop_reinforcements_trailing; [|by apply Forall_rev|done].
  destruct (rev trailing ++ m :: rev before) eqn:Hrev.
  { by destruct (rev trailing). }
  unfold rerunning_message.
  destruct (message_str m) as [text|e]; simpl; rewrite rev_involutive;
    [|done].
  unfold cannot_rerun. rewrite Hsrc. simpl.
  unfold is_character in Hchar.
  by destruct (msg_class m).
Qed.

(** The log line of [rerun] on a director's instruction without a colon:
    [str(message)] raises, and [rerun] with it, before anything is
    popped. *)
Lemma rerun_director_without_colon :
  message_str director_smile = Raise IndexError
  /\ rerun (new_scene [alice_hi; director_smile] [])
     = {| rerun_history := [alice_hi; director_smile];
          rerun_dispatch := Raise IndexError;
          rerun_reinforcements := [] |}.
Proof. split; reflexivity. Qed.

(** ** What leaves the game loop *)

Section GameLoopMore.

Variable World : Type.
Variable run : Await -> SceneState World -> SceneState World * Result Reply.

Lemma game_round_leave (st st' : LoopState World) (e : exn) :
  game_round run st = Leave e st' ->
  e = TalemateInterrupt \/ is_exception e = false.
Proof.
  unfold game_round.
  destruct (round_body run st) as [st1 [u|x]]; [discriminate|].
  destruct x; simpl; intros H; inversion H; auto.
Qed.

Lemma game_round_raised (st st' : LoopState World) (e : exn) :
  round_body run st = (st', Raise e) ->
  e = TalemateInterrupt \/ is_exception e = false ->
  game_round run st = Leave e st'.
Proof.
  intros Hbody He. unfold game_round. rewrite Hbody.
  destruct He as [->|He]; [done|]. by destruct e.
Qed.

(** X7: however many rounds the game loop runs, the exceptions that leave
    it are [TalemateInterrupt], which it raises again, and those that are
    no [Exception] ([asyncio.CancelledError], [KeyboardInterrupt],
    [SystemExit]), which no clause catches: every other exception is
    handled and the loop goes on, and each of these leaves the loop from
    the round that raises it. The loop ends without an exception only on a
    scene that is not active. *)
Theorem game_loop_ends (rounds : nat) (st : LoopState World) :
  match game_loop run rounds st with
  | Left e _ => e = TalemateInterrupt \/ is_exception e = false
  | Finished st' => active (scene st') = false
  | StillRunning _ => True
  end
  /\ forall (st' : LoopState World) (e : exn),
       active (scene st) = true ->
       round_body run st = (st', Raise e) ->
       e = TalemateInterrupt \/ is_exception e = false ->
       game_loop run (S rounds) st = Left e st'.
Proof.
  split.
  - revert st. induction rounds as [|n IH]; intros st; simpl; [done|].
    destruct (active (scene st)) eqn:Hactive; [|done].
    destruct (game_round run st) as [st'|e st'] eqn:Hround; [apply IH|].
    by apply game_round_leave in Hround.
  - intros st' e Hactive Hbody He. simpl. rewrite Hactive.
    by rewrite (game_round_raised st st' e Hbody He).
Qed.

Lemma actor_turn_skipped (turn_start : bool) (a : Actor) (st : LoopState World) :
  skip_to_player st = true ->
  actor_is_player a = false ->
  actor_turn run turn_start a st = (st, Ok NextActor).
Proof.
  intros Hskip Ha. unfold actor_turn, and_then, read.
  by rewrite Hskip, Ha.
Qed.

(** X8: while [skip_to_player] is set, the actors that are no player get
    no turn: the loop over the actors passes over them without a call and
    without a change, up to the first player. *)
Theorem actors_loop_skips_to_player (turn_start : bool)
    (npcs rest : list Actor) (st : LoopState World) :
  skip_to_player st = true ->
  Forall (fun a => actor_is_player a = false) npcs ->
  actors_loop run turn_start (npcs ++ rest) st
  = actors_loop run turn_start rest st.
Proof.
  intros Hskip Hall.
  induction npcs as [|a npcs IH]; [done|].
  inversion Hall as [|? ? Ha Hall']; subst. simpl.
  unfold and_then. rewrite actor_turn_skipped by done. by apply IH.
Qed.

End GameLoopMore.

(** ** Looking a message up by its id *)

Lemma rfind_index_bound {A : Type} (p : A -> bool) (l : list A) (n idx : nat) :
  rfind_index p l n = Some idx ->
  (idx < n)%nat
  /\ forall j x, (idx < j < n)%nat -> l !! j = Some x -> p x = false.
Proof.
  induction n as [|n IH]; simpl; [discriminate|].
  destruct (l !! n) as [x|] eqn:Hx.
  - destruct (p x) eqn:Hp.
    + intros [= <-]. split; [lia|]. intros j y Hj. lia.
    + intros H. destruct (IH H) as [Hlt Hafter]. split; [lia|].
      intros j y Hj Hy. destruct (decide (j = n)) as [->|Hne].
      * congruence.
      * apply (Hafter j y); [lia|done].
  - intros H. destruct (IH H) as [Hlt Hafter]. split; [lia|].
    intros j y Hj Hy. destruct (decide (j = n)) as [->|Hne]; [congruence|].
    apply (Hafter j y); [lia|done].
Qed.

Lemma message_index_none (s : Scene) (message_id : Z) :
  (forall m, m ∈ history s -> msg_id m <> message_id) ->
  message_index s message_id = -1.
Proof.
  intros Hnone. unfold message_index.
  destruct (rfind_index _ (history s) (length (history s))) as [idx|] eqn:Hfind;
    [|done].
  apply rfind_index_Some in Hfind as (m & Hm & Hp). apply Z.eqb_eq in Hp.
  exfalso. apply (Hnone m); [|done]. apply list_elem_of_lookup. eauto.
Qed.

(** X9: [message_index] is -1 exactly when no message carries the id;
    otherwise it is the index of the most recent message that carries it,
    and [get_message] returns that message. *)
Theorem message_index_spec (s : Scene) (message_id : Z) :
  (message_index s message_id = -1 <->
   forall m, m ∈ history s -> msg_id m <> message_id)
  /\ (message_index s message_id = -1 -> get_message s message_id = None)
  /\ (forall i : nat, message_index s message_id = Z.of_nat i ->
        exists m, history s !! i = Some m
          /\ msg_id m = message_id
          /\ get_message s message_id = Some m
          /\ forall j mj, (i < j)%nat -> history s !! j = Some mj ->
               msg_id mj <> message_id).
Proof.
  unfold message_index, get_message.
  destruct (rfind_index _ (history s) (length (history s))) as [idx|] eqn:Hfind.
  - pose proof (rfind_index_Some _ _ _ _ Hfind) as (m & Hm & Hp).
    pose proof (rfind_index_bound _ _ _ _ Hfind) as [Hlt Hafter].
    apply Z.eqb_eq in Hp.
    split; [|split].
    + split; [lia|]. intros Hnone. exfalso. apply (Hnone m); [|done].
      apply list_elem_of_lookup. eauto.
    + lia.
    + intros i Hi. assert (i = idx) as -> by lia.
      exists m. do 3 (split; [done|]).
      intros j mj Hj Hmj Hid.
      assert (Hjn : (j < length (history s))%nat) by (by eapply lookup_lt_Some).
      specialize (Hafter j mj ltac:(lia) Hmj). apply Z.eqb_neq in Hafter. done.
  - split; [|split].
    + split; [|done]. intros _ m Hm Hid.
      apply list_elem_of_lookup in Hm as [i Hi].
      pose proof (rfind_index_None _ _ _ Hfind i m
                    ltac:(by eapply lookup_lt_Some) Hi) as Hp.
      apply Z.eqb_neq in Hp. done.
    + done.
    + intros i Hi. lia.
Qed.

Lemma unique_ids_lookup (h : list SceneMessage) (i j : nat)
    (x y : SceneMessage) :
  unique_ids h -> h !! i = Some x -> h !! j = Some y ->
  msg_id x = msg_id y -> i = j.
Proof.
  intros Hu Hx Hy Hid.
  apply (NoDup_lookup (msg_id <$> h) i j (msg_id x) Hu).
  - by rewrite list_lookup_fmap, Hx.
  - by rewrite list_lookup_fmap, Hy, Hid.
Qed.

Lemma get_message_unique (s : Scene) (i : nat) (m : SceneMessage) :
  unique_ids (history s) -> history s !! i = Some m ->
  get_message s (msg_id m) = Some m.
Proof.
  intros Hu Hm. unfold get_message.
  destruct (rfind_index _ (history s) (length (history s))) as [idx|] eqn:Hfind.
  - pose proof (rfind_index_Some _ _ _ _ Hfind) as (x & Hx & Hp).
    apply Z.eqb_eq in Hp.
    by rewrite (unique_ids_lookup _ _ _ _ _ Hu Hx Hm Hp).
  - pose proof (rfind_index_None _ _ _ Hfind i m
                  ltac:(by eapply lookup_lt_Some) Hm) as Hp.
    apply Z.eqb_neq in Hp. done.
Qed.

Lemma alter_set_message_ids (text : string) (i : nat) (h : list SceneMessage) :
  msg_id <$> alter (set_message text) i h = msg_id <$> h.
Proof.
  apply list_eq. intros j. rewrite !list_lookup_fmap.
  destruct (decide (i = j)) as [<-|Hne].
  - rewrite list_lookup_alter_eq. by destruct (h !! i).
  - by rewrite list_lookup_alter_ne.
Qed.

(** X10: when the ids of the history are unique, a message that was
    edited is found under its id with the new text as its [message] and
    its other fields as they were, and every other message is found as it
    was. *)
Theorem get_message_after_edit (s : Scene) (message_id : Z) (text : string)
    (i : nat) (m : SceneMessage) :
  unique_ids (history s) ->
  history s !! i = Some m ->
  get_message (edit_message message_id text s) (msg_id m)
  = Some (if bool_decide (msg_id m = message_id)
          then {| msg_message := text; msg_id := msg_id m;
                  msg_source := msg_source m; msg_meta := msg_meta m;
                  msg_flags := msg_flags m; msg_class := msg_class m |}
          else m).
Proof.
  intros Hu Hm.
  change {| msg_message := text; msg_id := msg_id m;
            msg_source := msg_source m; msg_meta := msg_meta m;
            msg_flags := msg_flags m; msg_class := msg_class m |}
    with (set_message text m).
  unfold edit_message.
  destruct (list_find _ (history s)) as [[i0 m0]|] eqn:Hfind.
  - apply list_find_Some in Hfind as (Hm0 & Hid0 & _).
    assert (Hu' : unique_ids (history
                    (set_history (alter (set_message text) i0 (history s)) s))).
    { unfold unique_ids. simpl. by rewrite alter_set_message_ids. }
    destruct (decide (msg_id m = message_id)) as [Hid|Hid].
    + rewrite bool_decide_eq_true_2 by done.
      assert (i0 = i) as ->.
      { apply (unique_ids_lookup (history s) i0 i m0 m Hu Hm0 Hm).
        simpl in Hid0. congruence. }
      apply (get_message_unique _ i (set_message text m) Hu').
      simpl. by rewrite list_lookup_alter_eq, Hm.
    + rewrite bool_decide_eq_false_2 by done.
      apply (get_message_unique _ i m Hu').
      simpl. rewrite list_lookup_alter_ne; [done|].
      intros ->. simpl in Hid0. congruence.
  - apply list_find_None in Hfind. rewrite Forall_forall in Hfind.
    rewrite bool_decide_eq_false_2.
    + by apply (get_message_unique s i m).
    + apply Hfind. apply list_elem_of_lookup. eauto.
Qed.

(** ** Deleting a message and the clock *)

Lemma set_history_same (s : Scene) : set_history (history s) s = s.
Proof. by destruct s. Qed.

Section SyncFacts.

Variable isodate_add : value -> string -> Result string.

(** Replaying time passages changes the clock and nothing else. *)
Lemma replay_frame (messages : list SceneMessage) (s : Scene) :
  exists t, fst (replay isodate_add messages s) = set_ts t s.
Proof.
  revert s. induction messages as [|m rest IH]; intros s; simpl.
  - exists (ts s). by destruct s.
  - destruct (msg_class m); try apply IH.
    unfold advance_time. destruct (isodate_add (ts s) ts0) as [t'|e]; simpl.
    + destruct (IH (set_ts (VStr t') s)) as [t Ht]. exists t. by rewrite Ht.
    + exists (ts s). by destruct s.
Qed.

Lemma replay_set_history (messages h : list SceneMessage) (s : Scene) :
  replay isodate_add messages (set_history h s)
  = (set_history h (fst (replay isodate_add messages s)),
     snd (replay isodate_add messages s)).
Proof.
  revert s. induction messages as [|m rest IH]; intros s; simpl; [done|].
  destruct (msg_class m); try apply IH.
  unfold advance_time. simpl.
  destruct (isodate_add (ts s) ts0) as [t'|e]; simpl; [|done].
  apply (IH (set_ts (VStr t') s)).
Qed.

Lemma replay_app (l1 l2 : list SceneMessage) (s : Scene) :
  replay isodate_add (l1 ++ l2) s
  = match replay isodate_add l1 s with
    | (s', Ok _) => replay isodate_add l2 s'
    | (s', Raise e) => (s', Raise e)
    end.
Proof.
  revert s. induction l1 as [|m l1 IH]; intros s; simpl; [done|].
  destruct (msg_class m); try apply IH.
  destruct (advance_time isodate_add ts0 s) as [s' [u|e]]; [apply IH|done].
Qed.

(** [sync_time] starts from a reset clock: the clock it finds is of no
    account. *)
Lemma sync_time_set_ts (t : value) (s : Scene) :
  sync_time isodate_add (set_ts t s) = sync_time isodate_add s.
Proof. by destruct s. Qed.

Lemma sync_time_frame (s : Scene) :
  exists t, fst (sync_time isodate_add s) = set_ts t s.
Proof.
  unfold sync_time. simpl.
  destruct (slice_from_value _ (history s)) as [messages|e]; simpl.
  - destruct (replay_frame messages
                (set_ts (baseline_loop (archived_history s)
                           (length (archived_history s)) (VStr "PT0S"))
                   (set_ts (VStr "PT0S") s))) as [t Ht].
    exists t. rewrite Ht. by destruct s.
  - eexists. by destruct s.
Qed.

Lemma delete_message_history (message_id : Z) (s : Scene) :
  history (fst (delete_message isodate_add message_id s))
  = match list_find (fun m => msg_id m = message_id) (history s) with
    | Some (i, _) => delete i (history s)
    | None => history s
    end.
Proof.
  unfold delete_message.
  destruct (list_find _ (history s)) as [[i m]|]; [|done].
  destruct (is_time_passage m); [|done].
  destruct (sync_time_frame (set_history (delete i (history s)) s)) as [t ->].
  done.
Qed.

(** X11: [delete_message] takes the first message with the id out of the
    history and keeps the others in their order; with unique ids the id is
    not found afterwards; and without a message of that id it changes
    nothing and raises nothing. *)
Theorem delete_message_removes (message_id : Z) (s : Scene) :
  let s' := fst (delete_message isodate_add message_id s) in
  history s' `sublist_of` history s
  /\ (forall m, m ∈ history s -> msg_id m <> message_id -> m ∈ history s')
  /\ (unique_ids (history s) -> message_index s' message_id = -1)
  /\ ((forall m, m ∈ history s -> msg_id m <> message_id) ->
      delete_message isodate_add message_id s = (s, Ok tt))
  /\ ((exists m, m ∈ history s /\ msg_id m = message_id) ->
      S (length (history s')) = length (history s)).
Proof.
  simpl. rewrite delete_message_history. unfold delete_message.
  destruct (list_find _ (history s)) as [[i m]|] eqn:Hfind.
  - apply list_find_Some in Hfind as (Hm & Hid & Hfirst). simpl in Hid.
    split; [apply sublist_delete|].
    split.
    { intros x Hx Hne. apply list_elem_of_lookup in Hx as [j Hj].
      apply list_elem_of_lookup.
      destruct (decide (j < i)%nat) as [Hlt|Hge].
      - exists j. by rewrite list_lookup_delete_lt.
      - assert (j <> i) by (intros ->; congruence).
        exists (j - 1)%nat. rewrite list_lookup_delete_ge by lia.
        by replace (S (j - 1)) with j by lia. }
    split.
    { intros Hu.
      assert (Hidx : forall x, x ∈ delete i (history s) -> msg_id x <> message_id).
      { intros x Hx Hxid. apply list_elem_of_lookup in Hx as [j Hj].
        destruct (decide (j < i)%nat) as [Hlt|Hge].
        - rewrite list_lookup_delete_lt in Hj by done.
          pose proof (unique_ids_lookup _ _ _ _ _ Hu Hj Hm ltac:(congruence)).
          lia.
        - rewrite list_lookup_delete_ge in Hj by lia.
          pose proof (unique_ids_lookup _ _ _ _ _ Hu Hj Hm ltac:(congruence)).
          lia. }
      apply message_index_none.
      destruct (is_time_passage m); [|done].
      destruct (sync_time_frame (set_history (delete i (history s)) s))
        as [t ->]. done. }
    split.
    { intros Hnone. exfalso. apply (Hnone m); [|done].
      apply list_elem_of_lookup. eauto. }
    intros _. rewrite length_delete by eauto.
    apply lookup_lt_Some in Hm. lia.
  - apply list_find_None in Hfind. rewrite Forall_forall in Hfind.
    split; [done|]. split; [done|].
    split.
    { intros _. apply message_index_none.
      intros m Hm. by apply Hfind. }
    split; [done|].
    intros (m & Hm & Hid). exfalso. by apply (Hfind m).
Qed.

End SyncFacts.

Section ClockFacts.

(** One addition of durations, for [advance_time] and for
    [util.iso8601_add] alike. *)
Variable add : value -> string -> Result string.

Lemma push_history_plain (m : SceneMessage) (s : Scene) :
  is_director m = false ->
  is_time_passage m = false ->
  push_history add [m] s = (set_history (history s ++ [m]) s, Ok tt).
Proof.
  unfold push_history, is_director, is_time_passage. simpl.
  by destruct (msg_class m).
Qed.

Lemma list_find_fresh (h : list SceneMessage) (m : SceneMessage) :
  (forall x, x ∈ h -> msg_id x <> msg_id m) ->
  list_find (fun x => msg_id x = msg_id m) (h ++ [m]) = Some (length h, m).
Proof.
  intros Hfresh. apply list_find_Some. split; [|split].
  - by rewrite lookup_app_r, Nat.sub_diag by lia.
  - done.
  - intros j y Hy Hj. rewrite lookup_app_l in Hy by done.
    apply Hfresh. apply list_elem_of_lookup. eauto.
Qed.

Lemma delete_last (h : list SceneMessage) (m : SceneMessage) :
  delete (length h) (h ++ [m]) = h.
Proof. rewrite (delete_middle h [] m). by rewrite app_nil_r. Qed.

(** X12: appending a message that is neither a director message nor a
    time passage, under an id that the history does not hold yet, and
    deleting it again by its id gives the scene back. *)
Theorem push_then_delete (m : SceneMessage) (s : Scene) :
  (forall x, x ∈ history s -> msg_id x <> msg_id m) ->
  is_director m = false ->
  is_time_passage m = false ->
  delete_message add (msg_id m) (fst (push_history add [m] s)) = (s, Ok tt).
Proof.
  intros Hfresh Hd Ht. rewrite push_history_plain by done.
  unfold delete_message. simpl. rewrite list_find_fresh by done.
  rewrite Ht, delete_last. by destruct s.
Qed.

(** X13: the same for a time passage on a scene whose clock is what
    [sync_time] computes: the appended time passage advances the clock, and
    deleting it brings back the history and the clock. *)
Theorem push_then_delete_time_passage (m : SceneMessage) (t : string)
    (s s' : Scene) :
  msg_class m = TimePassageMessage t ->
  (forall x, x ∈ history s -> msg_id x <> msg_id m) ->
  sync_time add s = (s, Ok tt) ->
  push_history add [m] s = (s', Ok tt) ->
  delete_message add (msg_id m) s' = (s, Ok tt).
Proof.
  intros Hc Hfresh Hsync Hpush.
  unfold push_history in Hpush. simpl in Hpush. rewrite Hc in Hpush.
  unfold advance_time in Hpush.
  destruct (add (ts s) t) as [t'|e]; [|discriminate].
  injection Hpush as <-.
  unfold delete_message. simpl. rewrite list_find_fresh by done.
  unfold is_time_passage. rewrite Hc. rewrite delete_last.
  replace (set_history (history s)
             (set_history (history s ++ [m]) (set_ts (VStr t') s)))
    with (set_ts (VStr t') s) by (by destruct s).
  by rewrite sync_time_set_ts.
Qed.

End ClockFacts.

(** ** Incremental sync and full reconciliation *)

Section ReplayFacts.

Variable add : value -> string -> Result string.

Lemma slice_from_value_snoc (v : value) (h : list SceneMessage)
    (m : SceneMessage) (messages : list SceneMessage) :
  match v with
  | VNone => True
  | VInt n => 0 <= n <= Z.of_nat (length h)
  | VStr _ => False
  end ->
  slice_from_value v h = Ok messages ->
  slice_from_value v (h ++ [m]) = Ok (messages ++ [m]).
Proof.
  destruct v as [|x|n]; simpl; [|done|].
  - intros _ [= <-]. done.
  - intros Hn [= <-]. unfold slice_from.
    assert ((0 <=? n) = true) as -> by (apply Z.leb_le; lia).
    by rewrite drop_app_le by lia.
Qed.

(** X14: on a scene whose clock is what [sync_time] computes, and whose
    archive ends inside the history, appending a time passage advances the
    clock to what [sync_time] computes on the new history: the clock stays
    in sync. *)
Theorem push_time_passage_in_sync (m : SceneMessage) (t : string)
    (s s' : Scene) :
  msg_class m = TimePassageMessage t ->
  archive_end_within s ->
  sync_time add s = (s, Ok tt) ->
  push_history add [m] s = (s', Ok tt) ->
  sync_time add s' = (s', Ok tt).
Proof.
  intros Hc Hend Hsync Hpush.
  unfold push_history in Hpush. simpl in Hpush. rewrite Hc in Hpush.
  unfold advance_time in Hpush.
  destruct (add (ts s) t) as [t'|e] eqn:Hadd; [|discriminate].
  injection Hpush as <-.
  replace (set_history (history s ++ [m]) (set_ts (VStr t') s))
    with (set_ts (VStr t') (set_history (history s ++ [m]) s))
    by (by destruct s).
  rewrite sync_time_set_ts.
  unfold sync_time in *. simpl in *.
  unfold archive_end_within, read_summarized_to in Hend.
  set (end_ := match last (archived_history s) with
               | Some e => default (VInt 0) (e !! "end")
               | None => VInt 0
               end) in *.
  assert (Hend' : match end_ with
                  | VNone => True
                  | VInt n => 0 <= n <= Z.of_nat (length (history s))
                  | VStr _ => False
                  end).
  { subst end_. by destruct (last (archived_history s)). }
  destruct (slice_from_value end_ (history s)) as [messages|e] eqn:Hslice;
    [|discriminate].
  rewrite (slice_from_value_snoc end_ (history s) m messages Hend' Hslice).
  set (s1 := set_ts (baseline_loop (archived_history s)
                       (length (archived_history s)) (VStr "PT0S"))
               (set_ts (VStr "PT0S") s)) in *.
  replace (set_ts (baseline_loop (archived_history s)
                     (length (archived_history s)) (VStr "PT0S"))
             (set_ts (VStr "PT0S") (set_history (history s ++ [m]) s)))
    with (set_history (history s ++ [m]) s1) by (by destruct s).
  rewrite replay_app, replay_set_history, Hsync. simpl.
  rewrite Hc. unfold advance_time. simpl. rewrite Hadd.
  by destruct s.
Qed.

Lemma replay_cumulate (h : list SceneMessage) (s s' : Scene) (i : nat) :
  replay add h s = (s', Ok tt) ->
  exists cumulative,
    cumulate add (ts s) (time_jumps_from i h) = Ok cumulative
    /\ ts s' = match last cumulative with
               | Some (_, ending_time) => VStr ending_time
               | None => ts s
               end.
Proof.
  revert s i. induction h as [|m h IH]; intros s i; simpl.
  - intros [= <-]. by exists [].
  - destruct (msg_class m) eqn:Hc; try apply IH.
    unfold advance_time.
    destruct (add (ts s) ts0) as [t'|e] eqn:Hadd; [|discriminate].
    intros Hrest.
    destruct (IH _ (S i) Hrest) as (cumulative & Hcum & Hts).
    simpl in Hcum, Hts. simpl. rewrite Hadd. simpl. rewrite Hcum. simpl.
    exists ((i, t') :: cumulative). split; [done|].
    rewrite Hts. destruct cumulative as [|[j u] more]; [done|].
    rewrite last_cons_cons.
    destruct (last ((j, u) :: more)) as [[k v]|] eqn:Hl; [done|].
    by apply last_None in Hl.
Qed.

(** X15: with an empty archive, and one addition of durations behind
    both, [sync_time] and [fix_time] agree: when [sync_time] returns, the
    clock it leaves is the clock [fix_time] leaves. *)
Theorem sync_time_agrees_with_fix_time (s s' : Scene) :
  archived_history s = [] ->
  sync_time add s = (s', Ok tt) ->
  ts s' = ts (fix_time add s).
Proof.
  intros Ha Hsync. rewrite fix_time_ts, Ha. simpl.
  unfold sync_time in Hsync. simpl in Hsync. rewrite Ha in Hsync.
  simpl in Hsync. unfold slice_from in Hsync. simpl in Hsync.
  rewrite drop_0 in Hsync.
  destruct (replay_cumulate _ _ _ O Hsync) as (cumulative & Hcum & Hts).
  simpl in Hcum, Hts. rewrite Hcum, Hts.
  by destruct (last cumulative) as [[j u]|].
Qed.

Lemma calc_time_loop_cumulate (h : list SceneMessage) (t : string)
    (found : bool) (i : nat) :
  calc_time_loop add h t found
  = match cumulate add (VStr t) (time_jumps_from i h) with
    | Raise e => Raise e
    | Ok cumulative =>
        Ok (match last cumulative with
            | Some (_, ending_time) => (ending_time, true)
            | None => (t, found)
            end)
    end.
Proof.
  revert t found i. induction h as [|m h IH]; intros t found i; simpl; [done|].
  destruct (msg_class m); try apply IH.
  simpl. destruct (add (VStr t) ts0) as [t'|e]; simpl; [|done].
  rewrite (IH t' true (S i)).
  destruct (cumulate add (VStr t') (time_jumps_from (S i) h))
    as [cumulative|e]; simpl; [|done].
  destruct cumulative as [|[j u] more]; [done|].
  rewrite last_cons_cons.
  destruct (last ((j, u) :: more)) as [[k v]|] eqn:Hl; [done|].
  by apply last_None in Hl.
Qed.

Lemma slice_whole {A : Type} (l : list A) : slice 0 None l = l.
Proof.
  unfold slice, clamp_index. simpl.
  rewrite Z.min_l by lia. simpl. rewrite drop_0, Nat.sub_0_r.
  apply firstn_all.
Qed.

(** X16: with an empty archive, [fix_time] sets the clock to the sum that
    [calc_time] returns for the whole history; it sets it to [PT0S] when
    [calc_time] finds no time passage, and leaves it when [calc_time]
    raises. *)
Theorem fix_time_is_calc_time (s : Scene) :
  archived_history s = [] ->
  ts (fix_time add s)
  = match calc_time add s 0 None with
    | Ok (Some total) => VStr total
    | Ok None => VStr "PT0S"
    | Raise _ => ts s
    end.
Proof.
  intros Ha. rewrite fix_time_ts, Ha. simpl.
  unfold calc_time. rewrite slice_whole.
  rewrite (calc_time_loop_cumulate (history s) "PT0S" false O).
  destruct (cumulate add (VStr "PT0S") (time_jumps_from 0 (history s)))
    as [cumulative|e]; simpl; [|done].
  by destruct (last cumulative) as [[j u]|].
Qed.

End ReplayFacts.

(** ** Finding the most recent message *)

Section Find.

Variables (h : list SceneMessage) (typ_ source : string) (max_iterations : Z).

Lemma find_message_loop_spec (i : nat) (iterations : Z) :
  (i <= length h)%nat ->
  match find_message_loop h typ_ source max_iterations i iterations with
  | Some m =>
      exists k : nat,
        (k < i)%nat /\ h !! k = Some m
        /\ typ m = typ_ /\ msg_source m = source
        /\ Z.of_nat (i - k) <= Z.max 1 (max_iterations - iterations)
        /\ forall j x, (k < j < i)%nat -> h !! j = Some x ->
             ~ (typ x = typ_ /\ msg_source x = source)
  | None =>
      forall j x, (j < i)%nat ->
        Z.of_nat (i - j) <= Z.max 1 (max_iterations - iterations) ->
        h !! j = Some x -> ~ (typ x = typ_ /\ msg_source x = source)
  end.
Proof.
  revert iterations. induction i as [|k IH]; intros iterations Hi; simpl.
  - intros j x Hj. lia.
  - destruct (h !! k) as [m|] eqn:Hm; [|apply lookup_ge_None in Hm; lia].
    destruct (String.eqb (typ m) typ_ && String.eqb (msg_source m) source)
      eqn:Hmatch.
    + apply andb_true_iff in Hmatch as [Ht Hs].
      apply String.eqb_eq in Ht, Hs.
      exists k. split; [lia|]. do 3 (split; [done|]). split; [lia|].
      intros j x Hj. lia.
    + assert (Hno : ~ (typ m = typ_ /\ msg_source m = source)).
      { intros [Ht Hs]. apply String.eqb_eq in Ht, Hs.
        by rewrite Ht, Hs in Hmatch. }
      destruct (max_iterations <=? iterations + 1) eqn:Hit.
      * apply Z.leb_le in Hit. intros j x Hj Hwithin Hx.
        assert (j = k) as -> by lia. congruence.
      * apply Z.leb_gt in Hit. specialize (IH (iterations + 1) ltac:(lia)).
        destruct (find_message_loop h typ_ source max_iterations k
                    (iterations + 1)) as [found|].
        -- destruct IH as (k' & Hk' & Hf & Ht & Hs & Hwithin & Hafter).
           exists k'. split; [lia|]. do 3 (split; [done|]). split; [lia|].
           intros j x Hj Hx. destruct (decide (j = k)) as [->|Hne].
           ++ congruence.
           ++ apply (Hafter j x); [lia|done].
        -- intros j x Hj Hwithin Hx. destruct (decide (j = k)) as [->|Hne].
           ++ congruence.
           ++ apply (IH j x); [lia|lia|done].
Qed.

End Find.

(** X17: [find_message] returns the most recent message of the given type
    and source among the messages it examines, that is, among the last
    [max_iterations] messages (one message when [max_iterations] is below
    one): no later message has that type and source; and it returns
    nothing only when none of the examined messages has them. *)
Theorem find_message_spec (s : Scene) (typ_ source : string)
    (max_iterations : Z) :
  match find_message s typ_ source max_iterations with
  | Some m =>
      exists k : nat,
        history s !! k = Some m
        /\ typ m = typ_ /\ msg_source m = source
        /\ Z.of_nat (length (history s) - k) <= Z.max 1 max_iterations
        /\ forall j x, (k < j)%nat -> history s !! j = Some x ->
             ~ (typ x = typ_ /\ msg_source x = source)
  | None =>
      forall j x, history s !! j = Some x ->
        Z.of_nat (length (history s) - j) <= Z.max 1 max_iterations ->
        ~ (typ x = typ_ /\ msg_source x = source)
  end.
Proof.
  unfold find_message.
  pose proof (find_message_loop_spec (history s) typ_ source max_iterations
                (length (history s)) 0 (le_n _)) as H.
  destruct (find_message_loop _ _ _ _ _ _) as [m|].
  - destruct H as (k & Hk & Hm & Ht & Hs & Hwithin & Hafter).
    exists k. do 3 (split; [done|]). split; [lia|].
    intros j x Hj Hx. apply (Hafter j x); [|done].
    apply lookup_lt_Some in Hx. lia.
  - intros j x Hx Hwithin. apply (H j x); [|lia|done].
    by apply lookup_lt_Some in Hx.
Qed.

Lemma last_message_of_type_loop_exhausted (h : list SceneMessage)
    (types : list string) (source : option string) (n : Z) (i : nat)
    (num_iterations : Z) :
  n <= num_iterations ->
  last_message_of_type_loop h types source (Some n) i num_iterations = None.
Proof.
  intros Hn. destruct i as [|k]; simpl; [done|].
  destruct (h !! k); [|done].
  by assert ((n <=? num_iterations) = true) as -> by (by apply Z.leb_le).
Qed.

Lemma of_type_single (typ_ source : string) (m : SceneMessage) :
  source <> "" ->
  of_type [typ_] (Some source) m
  = String.eqb (typ m) typ_ && String.eqb (msg_source m) source.
Proof.
  intros Hsrc. unfold of_type. simpl.
  apply String.eqb_neq in Hsrc. rewrite Hsrc, orb_false_r. f_equal.
  - destruct (String.eqb (typ m) typ_) eqn:E.
    + apply String.eqb_eq in E. apply bool_decide_eq_true_2.
      by apply list_elem_of_singleton.
    + apply String.eqb_neq in E. apply bool_decide_eq_false_2.
      by rewrite list_elem_of_singleton.
  - destruct (String.eqb (msg_source m) source) eqn:E.
    + apply String.eqb_eq in E. apply bool_decide_eq_true_2. by rewrite E.
    + apply String.eqb_neq in E. apply bool_decide_eq_false_2. congruence.
Qed.

(** X18: for a source that is not empty and a limit of at least one,
    [find_message] and [last_message_of_type] with that one type return the
    same message. *)
Theorem find_message_is_last_message_of_type (s : Scene)
    (typ_ source : string) (max_iterations : Z) :
  source <> "" ->
  1 <= max_iterations ->
  find_message s typ_ source max_iterations
  = last_message_of_type s [typ_] (Some source) (Some max_iterations).
Proof.
  intros Hsrc Hmax. unfold find_message, last_message_of_type.
  assert (Hloop : forall i iterations, iterations < max_iterations ->
            find_message_loop (history s) typ_ source max_iterations i
              iterations
            = last_message_of_type_loop (history s) [typ_] (Some source)
                (Some max_iterations) i iterations).
  { induction i as [|k IH]; intros iterations Hit; simpl; [done|].
    destruct (history s !! k) as [m|]; [|done].
    assert ((max_iterations <=? iterations) = false) as ->
      by (apply Z.leb_gt; lia).
    rewrite of_type_single by done.
    destruct (String.eqb (typ m) typ_ && String.eqb (msg_source m) source);
      [done|].
    destruct (max_iterations <=? iterations + 1) eqn:Hnext.
    - apply Z.leb_le in Hnext.
      by rewrite last_message_of_type_loop_exhausted.
    - apply Z.leb_gt in Hnext. by apply IH. }
  apply Hloop. lia.
Qed.

Lemma rfind_index_ext {A : Type} (p q : A -> bool) (l : list A) (n : nat) :
  (forall x, p x = q x) -> rfind_index p l n = rfind_index q l n.
Proof.
  intros Hpq. induction n as [|n IH]; simpl; [done|].
  destruct (l !! n) as [x|]; [|done]. by rewrite Hpq, IH.
Qed.

(** X19: [last_player_message] is [last_message_of_type] asked for
    character messages of the source [player], without a limit. *)
Theorem last_player_message_is_last_message_of_type (s : Scene) :
  last_player_message s
  = last_message_of_type s ["character"] (Some "player") None.
Proof.
  unfold last_player_message, last_message_of_type.
  rewrite (rfind_index_ext _ (of_type ["character"] (Some "player"))).
  - assert (Hloop : forall i num, (i <= length (history s))%nat ->
              match rfind_index (of_type ["character"] (Some "player"))
                      (history s) i with
              | Some idx => history s !! idx
              | None => None
              end
              = last_message_of_type_loop (history s) ["character"]
                  (Some "player") None i num).
    { induction i as [|k IH]; intros num Hi; simpl; [done|].
      destruct (history s !! k) as [m|] eqn:Hm;
        [|apply lookup_ge_None in Hm; lia].
      destruct (of_type ["character"] (Some "player") m); [done|].
      apply IH. lia. }
    by apply Hloop.
  - intros m. rewrite of_type_single by done.
    unfold is_character, typ. by destruct (msg_class m).
Qed.

(** ** The recent history *)

Section RecentFacts.

Variable count_tokens_message : SceneMessage -> nat.

Lemma message_tokens_push (m : SceneMessage) (l : list SceneMessage) :
  message_tokens count_tokens_message l + Z.of_nat (count_tokens_message m)
  = message_tokens count_tokens_message (m :: l).
Proof. unfold message_tokens. simpl. lia. Qed.

Lemma message_tokens_ge_0 (l : list SceneMessage) :
  0 <= message_tokens count_tokens_message l.
Proof. unfold message_tokens. lia. Qed.

Lemma recent_history_loop_spec (h : list SceneMessage) (max_tokens : Z)
    (i : nat) (recent : list SceneMessage) :
  (i <= length h)%nat ->
  recent = [] \/ message_tokens count_tokens_message recent < max_tokens ->
  let result :=
    recent_history_loop count_tokens_message h max_tokens i recent
      (message_tokens count_tokens_message recent) in
  exists k : nat,
    (k <= i)%nat /\ (0 < i -> k < i)%nat
    /\ result = drop k (take i h) ++ recent
    /\ (k = O \/ max_tokens <= message_tokens count_tokens_message result)
    /\ (forall m rest, result = m :: rest ->
          rest = [] \/ message_tokens count_tokens_message rest < max_tokens).
Proof.
  revert recent. induction i as [|j IH]; intros recent Hi Hinv;
    cbn [recent_history_loop].
  - exists O. split; [lia|]. split; [lia|]. split; [by rewrite take_0|].
    split; [by left|].
    intros m rest ->. destruct Hinv as [Hnil|Hlt]; [discriminate|].
    rewrite <- message_tokens_push in Hlt. right.
    pose proof (message_tokens_ge_0 rest). lia.
  - destruct (h !! j) as [m|] eqn:Hm; [|apply lookup_ge_None in Hm; lia].
    assert (Hlast : drop j (take (S j) h) = [m]).
    { rewrite (take_S_r h j m Hm), drop_app_length'; [done|].
      rewrite length_take. lia. }
    cbv zeta. rewrite message_tokens_push.
    destruct (max_tokens <=? message_tokens count_tokens_message (m :: recent))
      eqn:Hstop.
    + apply Z.leb_le in Hstop. exists j.
      split; [lia|]. split; [lia|]. split; [by rewrite Hlast|].
      split; [by right|]. intros x rest [= <- <-]. done.
    + apply Z.leb_gt in Hstop.
      destruct (IH (m :: recent) ltac:(lia) ltac:(by right))
        as (k & Hk & _ & Hres & Hstopped & Hmin).
      exists k. split; [lia|]. split; [lia|]. split; [|done].
      rewrite Hres, (take_S_r h j m Hm), drop_app_le, <- app_assoc; [done|].
      rewrite length_take. lia.
Qed.

(** X20: [recent_history] returns the end of the history, in order: the
    shortest end that holds [max_tokens] tokens or more, or the whole
    history when it holds fewer; it returns one message at least unless the
    history is empty. *)
Theorem recent_history_spec (s : Scene) (max_tokens : Z) :
  let recent := recent_history count_tokens_message s max_tokens in
  recent `suffix_of` history s
  /\ (history s <> [] -> recent <> [])
  /\ (recent = history s
      \/ max_tokens <= message_tokens count_tokens_message recent)
  /\ (forall m rest, recent = m :: rest ->
        rest = [] \/ message_tokens count_tokens_message rest < max_tokens).
Proof.
  unfold recent_history.
  destruct (recent_history_loop_spec (history s) max_tokens
              (length (history s)) [] (le_n _) ltac:(by left))
    as (k & Hk & Hlt & Hres & Hstopped & Hmin).
  change (message_tokens count_tokens_message []) with 0 in *.
  rewrite firstn_all, app_nil_r in Hres.
  split; [rewrite Hres; apply suffix_drop|].
  split.
  { intros Hne. rewrite Hres. intros Hdrop.
    assert (Hlen : (0 < length (history s))%nat).
    { destruct (history s); [done|simpl; lia]. }
    specialize (Hlt Hlen).
    apply (f_equal length) in Hdrop. rewrite length_drop in Hdrop.
    simpl in Hdrop. lia. }
  split; [|done].
  destruct Hstopped as [->|Hge]; [left; by rewrite Hres, drop_0|by right].
Qed.

End RecentFacts.

(** ** Removing messages by type *)

Lemma remove_first_elem (x : SceneMessage) (l : list SceneMessage) :
  x ∈ l ->
  exists l1 l2, l = l1 ++ x :: l2 /\ remove_first x l = Ok (l1 ++ l2).
Proof.
  induction l as [|y l IH]; intros Hin; [by apply elem_of_nil in Hin|].
  simpl. destruct (bool_decide (y = x)) eqn:Hy.
  - apply bool_decide_eq_true in Hy as ->. by exists [], l.
  - apply bool_decide_eq_false in Hy.
    apply elem_of_cons in Hin as [->|Hin]; [done|].
    destruct (IH Hin) as (l1 & l2 & -> & ->). by exists (y :: l1), l2.
Qed.

Lemma remove_first_find (P : SceneMessage -> Prop)
    `{!forall m, Decision (P m)} (h : list SceneMessage) (i : nat)
    (m : SceneMessage) :
  list_find P h = Some (i, m) -> remove_first m h = Ok (delete i h).
Proof.
  revert i. induction h as [|y h IH]; intros i; [done|].
  cbn [list_find remove_first]. destruct (decide (P y)) as [Hy|Hy].
  - intros [= <- <-]. by rewrite bool_decide_eq_true_2.
  - destruct (list_find P h) as [[j x]|] eqn:Hfind; [|done].
    simpl. intros [= <- <-].
    assert (Hx : P x) by (by apply list_find_Some in Hfind as (_ & ? & _)).
    rewrite bool_decide_eq_false_2 by (by intros ->).
    by rewrite (IH j eq_refl).
Qed.

Lemma remove_first_unique (h : list SceneMessage) (i : nat) (m : SceneMessage) :
  unique_ids h -> h !! i = Some m -> remove_first m h = Ok (delete i h).
Proof.
  unfold unique_ids. revert i. induction h as [|y h IH]; intros i Hu Hm;
    [done|].
  rewrite fmap_cons in Hu. apply NoDup_cons in Hu as [Hy Hu].
  destruct i as [|j]; simpl in *.
  - injection Hm as ->. by rewrite bool_decide_eq_true_2.
  - rewrite bool_decide_eq_false_2.
    + by rewrite (IH j Hu Hm).
    + intros ->. apply Hy. apply list_elem_of_fmap. exists m.
      split; [done|]. apply list_elem_of_lookup. eauto.
Qed.

Section Pop.

Variables (typ_ : string) (source : option string).

Let P (m : SceneMessage) : Prop := pop_matches typ_ source m = true.

Lemma pop_scan_first (candidates : list SceneMessage) (iterations : Z)
    (to_remove : list SceneMessage) :
  pop_scan typ_ source false None candidates iterations to_remove
  = to_remove ++ match list_find P candidates with
                 | Some (_, m) => [m]
                 | None => []
                 end.
Proof.
  revert iterations. induction candidates as [|m rest IH]; intros iterations.
  - by rewrite app_nil_r.
  - cbn [pop_scan list_find].
    destruct (decide (P m)) as [Hm|Hm].
    + unfold P in Hm. by rewrite Hm.
    + apply not_true_is_false in Hm. rewrite Hm. simpl. rewrite IH.
      by destruct (list_find P rest) as [[j x]|].
Qed.

Lemma pop_scan_last (h : list SceneMessage) (n : nat) (iterations : Z)
    (to_remove : list SceneMessage) :
  (n <= length h)%nat ->
  pop_scan typ_ source false None (rev (take n h)) iterations to_remove
  = to_remove ++ match rfind_index (pop_matches typ_ source) h n with
                 | Some idx => option_list (h !! idx)
                 | None => []
                 end.
Proof.
  revert iterations. induction n as [|k IH]; intros iterations Hn.
  - rewrite take_0. simpl. by rewrite app_nil_r.
  - destruct (h !! k) as [m|] eqn:Hm; [|apply lookup_ge_None in Hm; lia].
    rewrite (take_S_r h k m Hm), rev_unit. cbn [pop_scan rfind_index].
    rewrite Hm.
    destruct (pop_matches typ_ source m) eqn:Hp; simpl.
    + by rewrite Hm.
    + apply IH. lia.
Qed.

Lemma pop_scan_all (candidates : list SceneMessage) (iterations : Z)
    (to_remove : list SceneMessage) :
  pop_scan typ_ source true None candidates iterations to_remove
  = to_remove ++ filter P candidates.
Proof.
  revert iterations to_remove.
  induction candidates as [|m rest IH]; intros iterations to_remove.
  - by rewrite app_nil_r.
  - cbn [pop_scan]. rewrite andb_false_r. cbn [scan_exhausted].
    rewrite IH, filter_cons.
    destruct (decide (P m)) as [Hm|Hm].
    + unfold P in Hm. rewrite Hm. by rewrite <- app_assoc.
    + apply not_true_is_false in Hm. by rewrite Hm.
Qed.

Lemma filter_complement_all (h : list SceneMessage) :
  filter P h = [] -> filter (fun m => ~ P m) h = h.
Proof.
  induction h as [|m h IH]; [done|]. rewrite !filter_cons.
  destruct (decide (P m)) as [Hm|Hm]; [done|].
  intros Hnil. rewrite decide_True by done. by rewrite IH.
Qed.

Lemma remove_all_filter (to_remove h : list SceneMessage) :
  to_remove ≡ₚ filter P h ->
  remove_all to_remove h = (filter (fun m => ~ P m) h, Ok tt).
Proof.
  revert h. induction to_remove as [|m to_remove IH]; intros h Hperm.
  - apply Permutation_nil in Hperm. simpl.
    by rewrite filter_complement_all.
  - assert (Hin : m ∈ filter P h) by (rewrite <- Hperm; left).
    apply list_elem_of_filter in Hin as [Hm Hin].
    destruct (remove_first_elem m h Hin) as (l1 & l2 & -> & Hrem).
    cbn [remove_all]. rewrite Hrem.
    rewrite filter_app, filter_cons_True in Hperm by done.
    rewrite <- Permutation_middle in Hperm.
    apply Permutation_cons_inv in Hperm. rewrite <- filter_app in Hperm.
    rewrite (IH _ Hperm). rewrite !filter_app.
    by rewrite (filter_cons_False (fun m => ~ P m)) by (by intros Hn).
Qed.

End Pop.

(** X21: [pop_history] with [all=True] and no bound on the iterations
    removes every message of the type (and of the source, when one is
    given) and keeps the others in their order, whichever way it scans; it
    raises nothing. *)
Theorem pop_history_all (typ_ : string) (source : option string)
    (reverse : bool) (s : Scene) :
  pop_history typ_ source true None reverse s
  = (set_history
       (filter (fun m => pop_matches typ_ source m <> true) (history s)) s,
     Ok tt).
Proof.
  unfold pop_history. rewrite pop_scan_all. simpl.
  rewrite (remove_all_filter typ_ source); [done|].
  destruct reverse; [done|].
  apply filter_Permutation. symmetry. apply Permutation_rev.
Qed.

(** X22: the plain [pop_history] of a history of unique ids removes the
    most recent message of the type and source and nothing else; without
    such a message it leaves the scene as it is. *)
Theorem pop_history_last (typ_ : string) (source : option string) (s : Scene) :
  unique_ids (history s) ->
  pop_history typ_ source false None false s
  = (match rfind_index (pop_matches typ_ source) (history s)
             (length (history s)) with
     | Some idx => set_history (delete idx (history s)) s
     | None => s
     end, Ok tt).
Proof.
  intros Hu. unfold pop_history.
  rewrite <- (firstn_all (history s)) at 1.
  rewrite pop_scan_last by done. simpl.
  destruct (rfind_index _ (history s) (length (history s))) as [idx|] eqn:Hfind.
  - apply rfind_index_Some in Hfind as (m & Hm & _). rewrite Hm. simpl.
    by rewrite (remove_first_unique _ idx m Hu Hm).
  - simpl. by rewrite set_history_same.
Qed.

(** X23: [pop_history] with [reverse=True] removes the oldest message of
    the type and source, at its own position, also when the history holds
    equal messages. *)
Theorem pop_history_first (typ_ : string) (source : option string) (s : Scene) :
  pop_history typ_ source false None true s
  = (match list_find (fun m => pop_matches typ_ source m = true)
             (history s) with
     | Some (i, _) => set_history (delete i (history s)) s
     | None => s
     end, Ok tt).
Proof.
  unfold pop_history. rewrite pop_scan_first. simpl.
  destruct (list_find _ (history s)) as [[i m]|] eqn:Hfind.
  - simpl. by rewrite (remove_first_find _ _ i m Hfind).
  - simpl. by rewrite set_history_same.
Qed.

(** ** What [push_history] leaves alone *)

Lemma filter_delete_rejected {A : Type} (P : A -> Prop)
    `{!forall x, Decision (P x)} (l : list A) (i : nat) (x : A) :
  l !! i = Some x -> ~ P x -> filter P (delete i l) = filter P l.
Proof.
  intros Hx Hn. rewrite <- (take_drop_middle l i x Hx) at 2.
  by rewrite delete_take_drop, !filter_app, filter_cons_False.
Qed.

Lemma evict_director_frame (source : string) (h : list SceneMessage) :
  evict_director source h `sublist_of` h
  /\ filter (fun m => is_director m = false) (evict_director source h)
     = filter (fun m => is_director m = false) h.
Proof.
  unfold evict_director.
  destruct (rfind_index _ h (length h)) as [idx|] eqn:Hfind; [|done].
  apply rfind_index_Some in Hfind as (m & Hm & Hp).
  split; [apply sublist_delete|].
  apply (filter_delete_rejected _ _ _ m Hm).
  unfold same_source_director in Hp. apply andb_true_iff in Hp as [Hd _].
  by rewrite Hd.
Qed.

Section PushFrame.

Variable isodate_add : value -> string -> Result string.

Lemma push_prepare_frame (messages : list SceneMessage) (s : Scene) :
  let s' := fst (push_prepare isodate_add messages s) in
  history s' `sublist_of` history s
  /\ filter (fun m => is_director m = false) (history s')
     = filter (fun m => is_director m = false) (history s)
  /\ archived_history s' = archived_history s
  /\ layered_history s' = layered_history s
  /\ intro s' = intro s
  /\ helpers s' = helpers s.
Proof.
  revert s. induction messages as [|m rest IH]; intros s; [done|].
  cbn [push_prepare].
  destruct (msg_class m) eqn:Hc; try apply IH.
  - destruct (IH (set_history (evict_director (msg_source m) (history s)) s))
      as (Hsub & Hfilter & Hrest).
    destruct (evict_director_frame (msg_source m) (history s)) as [Hsub' Hf'].
    simpl in *. split; [by etrans|]. split; [by rewrite Hfilter|done].
  - unfold advance_time. destruct (isodate_add (ts s) ts0) as [t'|e]; [|done].
    apply (IH (set_ts (VStr t') s)).
Qed.

(** X24: [push_history] takes nothing but director messages out of the
    history and keeps the order of what it leaves; it appends the whole
    batch when it returns, and nothing when it raises. The archive, the
    layers, the intro and the helpers are as before. *)
Theorem push_history_frame (messages : list SceneMessage) (s : Scene) :
  let s' := fst (push_history isodate_add messages s) in
  let r := snd (push_history isodate_add messages s) in
  exists kept : list SceneMessage,
    history s' = kept ++ (if is_ok r then messages else [])
    /\ kept `sublist_of` history s
    /\ filter (fun m => is_director m = false) kept
       = filter (fun m => is_director m = false) (history s)
    /\ archived_history s' = archived_history s
    /\ layered_history s' = layered_history s
    /\ intro s' = intro s
    /\ helpers s' = helpers s.
Proof.
  pose proof (push_prepare_frame messages s) as Hframe.
  unfold push_history.
  destruct (push_prepare isodate_add messages s) as [s1 [u|e]]; simpl in *.
  - by exists (history s1).
  - exists (history s1). by rewrite app_nil_r.
Qed.

End PushFrame.

(** ** Resetting a scene *)

Section ResetFacts.

Variable isodate_add : value -> string -> Result string.

Lemma baseline_loop_last (a : list Entry) (i : nat) (t : value) :
  (i <= length a)%nat ->
  baseline_loop a i t
  = match last (filter (fun e => truthy (dict_get e "ts") = true)
                  (take i a)) with
    | Some e => dict_get e "ts"
    | None => t
    end.
Proof.
  induction i as [|k IH]; intros Hi; [by rewrite take_0|].
  destruct (a !! k) as [e|] eqn:He; [|apply lookup_ge_None in He; lia].
  cbn [baseline_loop]. rewrite He, (take_S_r a k e He), filter_app.
  destruct (truthy (dict_get e "ts")) eqn:Hts.
  - rewrite filter_cons_True, filter_nil by done. by rewrite last_snoc.
  - rewrite filter_cons_False, filter_nil, app_nil_r by (by rewrite Hts).
    apply IH. lia.
Qed.

(** X25: after [reset] the history is empty and the archive holds the
    entries whose [end] is missing or [None], in their order; [sync_time]
    on that scene raises nothing: it sets the clock to the [ts] of the last
    of these entries that has a truthy one, or to [PT0S] when none has, and
    touches nothing else. *)
Theorem sync_time_after_reset (s : Scene) :
  let kept :=
    filter (fun e => dict_get e "end" = VNone) (archived_history s) in
  let stamped :=
    filter (fun e => truthy (dict_get e "ts") = true) kept in
  history (reset s) = []
  /\ archived_history (reset s) = kept
  /\ sync_time isodate_add (reset s)
     = ({| history := []; archived_history := kept;
           layered_history := layered_history s;
           ts := match last stamped with
                 | Some e => dict_get e "ts"
                 | None => VStr "PT0S"
                 end;
           intro := intro s; helpers := helpers s |},
        Ok tt).
Proof.
  cbv zeta. split; [done|]. split; [done|].
  unfold sync_time. cbn [ts history archived_history set_ts].
  set (kept := archived_history (reset s)).
  assert (Hend : match last kept with
                 | Some e => default (VInt 0) (e !! "end")
                 | None => VInt 0
                 end = VInt 0
                 \/ match last kept with
                    | Some e => default (VInt 0) (e !! "end")
                    | None => VInt 0
                    end = VNone).
  { destruct (last kept) as [e|] eqn:Hlast; [|by left].
    assert (Hin : e ∈ kept).
    { apply last_Some in Hlast as [l' ->]. apply elem_of_app. right. left. }
    unfold kept, reset in Hin. simpl in Hin.
    apply list_elem_of_filter in Hin as [Hnone _]. unfold dict_get in Hnone.
    destruct (e !! "end") as [v|]; simpl in *; [right; done|by left]. }
  rewrite baseline_loop_last, firstn_all by done.
  destruct Hend as [-> | ->]; simpl; by destruct s.
Qed.

End ResetFacts.

(** ** What [fix_time] leaves alone *)

Section FixTimeFrame.

Variable iso8601_add : value -> string -> Result string.

(** X26: [fix_time] never touches the history, the layered history, the
    intro or the helpers, and in the archive it changes nothing but the
    time stamps of entries that have an [end], keeping their number and
    order. *)
Theorem fix_time_frame (s : Scene) :
  let s' := fix_time iso8601_add s in
  history s' = history s
  /\ layered_history s' = layered_history s
  /\ intro s' = intro s
  /\ helpers s' = helpers s
  /\ Forall2 clock_stamped (archived_history s) (archived_history s').
Proof.
  cbv zeta. split; [apply fix_time_history|].
  split; [|split; [|split; [|apply fix_time_archive_stamped]]];
    unfold fix_time, _fix_time;
    (destruct (cumulate _ _ _) as [cumulative|x]; [|done]);
    (destruct (last cumulative) as [[idx ending_time]|]; [|done]);
    by destruct (apply_time_jumps _ _ _) as [entries [u|x]].
Qed.

End FixTimeFrame.

(** ** More on the context assembler *)

Section ContextMore.

Variable count_tokens_text : string -> nat.
Variable count_tokens_message : SceneMessage -> nat.
Variable iso8601_diff_to_human : value -> value -> Result string.
Variable condensed : string -> string.
Variable fix_exposition_in_text : string -> string.



Lemma dialogue_loop_content (s : Scene) (o : ContextOptions)
    (budget_dialogue : Z) (cutoff : value) (i : nat) (parts : list string)
    (collected : Z) (parts' : list string) (collected' : Z) :
  (i <= length (history s))%nat ->
  dialogue_loop count_tokens_text count_tokens_message s o budget_dialogue
    cutoff i parts collected = Ok (parts', collected') ->
  exists (k : nat) (rendered : list string),
    (k <= i)%nat
    /\ parts' = rendered ++ parts
    /\ Forall2
         (fun m p =>
            as_format m (conversation_format (helpers s))
              (actor_direction_mode (helpers s)) = Ok p)
         (filter (fun m => hidden m || skipped_in_dialogue o m = false)
            (drop k (take i (history s))))
         rendered
    /\ collected'
       = collected
         + Z.of_nat
             (length
                (filter (fun m => is_character m = true)
                   (filter
                      (fun m => hidden m || skipped_in_dialogue o m = false)
                      (drop k (take i (history s)))))).
Proof.
  revert parts collected.
  induction i as [|j IH]; intros parts collected Hi.
  { simpl. intros [= <- <-]. exists O, []. rewrite take_0. simpl.
    split; [lia|]. split; [done|]. split; [constructor|lia]. }
  assert (Hstop : forall m, history s !! j = Some m ->
            exists (k : nat) (rendered : list string),
              (k <= S j)%nat
              /\ parts = rendered ++ parts
              /\ Forall2
                   (fun m p =>
                      as_format m (conversation_format (helpers s))
                        (actor_direction_mode (helpers s)) = Ok p)
                   (filter
                      (fun m => hidden m || skipped_in_dialogue o m = false)
                      (drop k (take (S j) (history s))))
                   rendered
              /\ collected
                 = collected
                   + Z.of_nat
                       (length
                          (filter (fun m => is_character m = true)
                             (filter
                                (fun m =>
                                   hidden m || skipped_in_dialogue o m = false)
                                (drop k (take (S j) (history s))))))).
  { intros m Hm. exists (S j), [].
    rewrite drop_ge by (rewrite length_take; lia). simpl.
    split; [lia|]. split; [done|]. split; [constructor|lia]. }
  cbn [dialogue_loop].
  destruct (history s !! j) as [m|] eqn:Hm; [|apply lookup_ge_None in Hm; lia].
  destruct (index_below j cutoff) as [below|x]; [|discriminate]. simpl.
  destruct (below && (assured_dialogue_num o <=? collected)).
  { intros [= <- <-]. by apply (Hstop m). }
  assert (Hdrop : forall k, (k <= j)%nat ->
            drop k (take (S j) (history s))
            = drop k (take j (history s)) ++ [m]).
  { intros k Hk. rewrite (take_S_r _ j m Hm), drop_app_le; [done|].
    rewrite length_take. lia. }
  destruct (hidden m || skipped_in_dialogue o m) eqn:Hskip.
  - intros Hloop.
    destruct (IH parts collected ltac:(lia) Hloop)
      as (k & rendered & Hk & Hparts & Hall & Hcount).
    exists k, rendered. split; [lia|]. split; [done|].
    rewrite (Hdrop k Hk), filter_app, filter_cons_False, filter_nil,
      app_nil_r by (by rewrite Hskip). done.
  - destruct (_ <? _).
    { intros [= <- <-]. by apply (Hstop m). }
    destruct (as_format m _ _) as [p|x] eqn:Hrender; [|discriminate].
    simpl. intros Hloop.
    destruct (IH _ _ ltac:(lia) Hloop)
      as (k & rendered & Hk & Hparts & Hall & Hcount).
    exists k, (rendered ++ [p]). split; [lia|].
    split; [by rewrite <- app_assoc|].
    rewrite (Hdrop k Hk), filter_app, filter_cons_True, filter_nil by done.
    split.
    + apply Forall2_app; [done|]. by repeat constructor.
    + rewrite Hcount, filter_app, length_app, filter_cons, filter_nil.
      destruct (is_character m) eqn:Hc.
      * rewrite decide_True by done. simpl. lia.
      * rewrite decide_False by done. simpl. lia.
Qed.

(** X28: when the dialogue lane returns, it holds, in the order of the
    history, the rendering of every message from some index of the history
    on that is neither hidden nor skipped by the options, and nothing else;
    the number it returns with it counts the character messages among
    them. *)
Theorem dialogue_lane_content (s : Scene) (o : ContextOptions)
    (budget_dialogue : Z) (parts : list string) (collected : Z) :
  dialogue_lane count_tokens_text count_tokens_message s o budget_dialogue
  = Ok (parts, collected) ->
  exists k : nat,
    let shown :=
      filter (fun m => hidden m || skipped_in_dialogue o m = false)
        (drop k (history s)) in
    Forall2
      (fun m p =>
         as_format m (conversation_format (helpers s))
           (actor_direction_mode (helpers s)) = Ok p)
      shown parts
    /\ collected
       = Z.of_nat (length (filter (fun m => is_character m = true) shown)).
Proof.
  unfold dialogue_lane.
  destruct (summarized_to s) as [cutoff|x]; [|discriminate]. simpl.
  intros Hloop.
  destruct (dialogue_loop_content s o budget_dialogue cutoff
              (length (history s)) [] 0 parts collected (le_n _) Hloop)
    as (k & rendered & Hk & Hparts & Hall & Hcount).
  rewrite app_nil_r in Hparts. subst rendered.
  rewrite firstn_all in Hall, Hcount. exists k. simpl. split; [done|lia].
Qed.

End ContextMore.

(** ** The properties on the scenarios *)

Lemma character_message_speaker_witness :
  Character.character_name alice_hi = "Alice"
  /\ secondary_source alice_hi = "Alice"
  /\ as_format alice_hi "movie_script" "direction"
     = Ok (NL +:+ Str.upper "Alice" +:+ NL +:+ Str.strip " hi" +:+ NL
             +:+ "END-OF-LINE" +:+ NL)
  /\ ("chat" <> "movie_script" ->
      as_format alice_hi "chat" "direction" = Ok (msg_message alice_hi)).
Proof.
  apply (character_message_speaker alice_hi None "Alice" " hi" "chat"
           "direction"); reflexivity.
Defined.

Lemma character_message_without_colon_witness :
  as_format colonless "movie_script" "direction" = Raise IndexError
  /\ Character.character_name colonless = msg_message colonless.
Proof.
  apply (character_message_without_colon colonless None "direction");
    reflexivity.
Defined.

Lemma rerun_reinforcements_only_witness :
  rerun (new_scene [mood_note] [])
  = {| rerun_history := [];
       rerun_dispatch := Raise IndexError;
       rerun_reinforcements := [] |}.
Proof.
  apply (rerun_reinforcements_only (new_scene [mood_note] [])).
  - discriminate.
  - repeat constructor.
Defined.

Lemma rerun_agent_message_witness :
  rerun_history (rerun (new_scene [player_line; alice_hi; mood_note] []))
  = [player_line]
  /\ rerun_reinforcements
       (rerun (new_scene [player_line; alice_hi; mood_note] []))
     = rev [mood_note]
  /\ rerun_dispatch (rerun (new_scene [player_line; alice_hi; mood_note] []))
     = Ok (match msg_class alice_hi with
           | CharacterMessage _ => RerunCharacterMessage alice_hi
           | NarratorMessage => RerunNarratorMessage alice_hi
           | DirectorMessage _ => RerunDirectorMessage alice_hi
           | _ => RerunContextInvestigationMessage alice_hi
           end).
Proof.
  apply (rerun_agent_message (new_scene [player_line; alice_hi; mood_note] [])
           [player_line] [mood_note] alice_hi).
  - reflexivity.
  - repeat constructor.
  - discriminate.
  - reflexivity.
Defined.

Lemma rerun_player_narration_witness :
  rerun (new_scene [alice_hi; narrator_by_player; mood_note] [])
  = {| rerun_history := [alice_hi] ++ [narrator_by_player];
       rerun_dispatch := Raise AttributeError;
       rerun_reinforcements := [] |}.
Proof.
  apply (rerun_player_narration
           (new_scene [alice_hi; narrator_by_player; mood_note] [])
           [alice_hi] [mood_note] narrator_by_player).
  - reflexivity.
  - repeat constructor.
  - reflexivity.
  - reflexivity.
  - reflexivity.
Defined.

Lemma actors_loop_skips_to_player_witness :
  actors_loop cancelling_run true ([guard] ++ [elmer]) skipping_to_elmer
  = actors_loop cancelling_run true [elmer] skipping_to_elmer.
Proof.
  apply (actors_loop_skips_to_player unit cancelling_run true [guard] [elmer]
           skipping_to_elmer).
  - reflexivity.
  - repeat constructor.
Defined.

Lemma get_message_after_edit_witness :
  get_message
    (edit_message 2 "Alice: hello" (new_scene [player_line; alice_hi] []))
    2
  = Some (new_message (CharacterMessage None) "Alice: hello" 2 "ai").
Proof.
  apply (get_message_after_edit (new_scene [player_line; alice_hi] []) 2
           "Alice: hello" 1 alice_hi).
  - apply (bool_decide_unpack _). vm_compute. exact I.
  - reflexivity.
Defined.

Lemma push_then_delete_witness :
  delete_message Iso8601.add (msg_id bob_hello)
    (fst (push_history Iso8601.add [bob_hello]
            (new_scene [player_line; alice_hi] [])))
  = (new_scene [player_line; alice_hi] [], Ok tt).
Proof.
  apply (push_then_delete Iso8601.add bob_hello
           (new_scene [player_line; alice_hi] [])).
  - apply Forall_forall. simpl. repeat (constructor; [by vm_compute|]).
    constructor.
  - reflexivity.
  - reflexivity.
Defined.

Lemma push_then_delete_time_passage_witness :
  delete_message Iso8601.add (msg_id one_day_passes) a_day_later
  = (first_day, Ok tt).
Proof.
  apply (push_then_delete_time_passage Iso8601.add one_day_passes "P1D"
           first_day a_day_later).
  - reflexivity.
  - apply Forall_forall. simpl. repeat (constructor; [by vm_compute|]).
    constructor.
  - reflexivity.
  - reflexivity.
Defined.

Lemma push_time_passage_in_sync_witness :
  sync_time Iso8601.add a_day_later = (a_day_later, Ok tt).
Proof.
  apply (push_time_passage_in_sync Iso8601.add one_day_passes "P1D"
           first_day a_day_later).
  - reflexivity.
  - unfold archive_end_within. simpl. lia.
  - reflexivity.
  - reflexivity.
Defined.

Lemma sync_time_agrees_with_fix_time_witness :
  ts (fst (sync_time Iso8601.add (new_scene three_days_history [])))
  = ts (fix_time Iso8601.add (new_scene three_days_history [])).
Proof.
  apply (sync_time_agrees_with_fix_time Iso8601.add
           (new_scene three_days_history [])
           (fst (sync_time Iso8601.add (new_scene three_days_history [])))).
  - reflexivity.
  - reflexivity.
Defined.

Lemma fix_time_is_calc_time_witness :
  ts (fix_time Iso8601.add (new_scene three_days_history []))
  = match calc_time Iso8601.add (new_scene three_days_history []) 0 None with
    | Ok (Some total) => VStr total
    | Ok None => VStr "PT0S"
    | Raise _ => ts (new_scene three_days_history [])
    end.
Proof.
  apply (fix_time_is_calc_time Iso8601.add (new_scene three_days_history [])).
  reflexivity.
Defined.

Lemma find_message_is_last_message_of_type_witness :
  find_message (new_scene [player_line; alice_hi] []) "character" "player" 100
  = last_message_of_type (new_scene [player_line; alice_hi] []) ["character"]
      (Some "player") (Some 100).
Proof.
  apply (find_message_is_last_message_of_type
           (new_scene [player_line; alice_hi] []) "character" "player" 100).
  - discriminate.
  - lia.
Defined.

Lemma pop_history_last_witness :
  pop_history "character" (Some "ai") false None false
    (new_scene [player_line; alice_hi; bob_hello] [])
  = (match rfind_index (pop_matches "character" (Some "ai"))
             (history (new_scene [player_line; alice_hi; bob_hello] []))
             (length (history (new_scene [player_line; alice_hi; bob_hello] [])))
     with
     | Some idx =>
         set_history
           (delete idx
              (history (new_scene [player_line; alice_hi; bob_hello] [])))
           (new_scene [player_line; alice_hi; bob_hello] [])
     | None => new_scene [player_line; alice_hi; bob_hello] []
     end, Ok tt).
Proof.
  apply (pop_history_last "character" (Some "ai")
           (new_scene [player_line; alice_hi; bob_hello] [])).
  apply (bool_decide_unpack _). vm_compute. exact I.
Defined.


Lemma dialogue_lane_content_witness :
  exists k : nat,
    let shown :=
      filter
        (fun m => hidden m || skipped_in_dialogue default_options m = false)
        (drop k (history overrun_scene)) in
    Forall2
      (fun m p =>
         as_format m (conversation_format (helpers overrun_scene))
           (actor_direction_mode (helpers overrun_scene)) = Ok p)
      shown ["Alice: hi"; "Bob: hello"]
    /\ 2 = Z.of_nat (length (filter (fun m => is_character m = true) shown)).
Proof.
  apply (dialogue_lane_content length_tokens message_length_tokens
           overrun_scene default_options 4096 ["Alice: hi"; "Bob: hello"] 2).
  reflexivity.
Defined.

